(** * Oracle APEX agents: the project workflow engine of [app.py]

    A shallow embedding of [src/app.py] (the Flask application: the project
    registry [active_projects], the class [ProjectState], the background
    task [run_project_workflow] and the JSON endpoints) and of
    [src/workflow/graph.py] (the function [run_workflow] the background task
    calls), with the properties of the design document stated over them.

    Conventions of the embedding.
    - A Python [dict] keyed by strings is a [gmap string _]; the dict a
      workflow step carries, which the engine iterates over, is an
      association list in insertion order.
    - [datetime.now()] reads a logical clock that is part of the world; each
      read returns the current tick and advances the clock.
    - [uuid.uuid4()] is an input of the operation that calls it.
    - Python's [None] is [None]; an attribute that may hold [None] or a
      string is an [option string].
    - An exception is a value of [Exn].  Where it matters whether
      [except Exception] catches it, an exception is marked as an instance of
      [Exception] or as one of [BaseException] only ([SystemExit],
      [KeyboardInterrupt], [GeneratorExit]).
    - A Python [str] is the [string] of its UTF-8 bytes; [len] and slices
      count characters, not bytes. *)

From Stdlib Require Import ZArith Floats Uint63.
From Stdlib Require DecimalString.
From stdpp Require Import gmap strings list fin_maps sorting.

Local Open Scope string_scope.
Local Open Scope list_scope.

(** ** Python runtime: exceptions, truthiness, slices, numbers *)

Definition Time := nat.

Record Exn := { exn_class : string; exn_str : string }.

(** [TypeError] raised by [iter(o)] for an object whose class has no
    [__iter__]. *)
Definition not_iterable (cls : string) : Exn :=
  {| exn_class := "TypeError";
     exn_str := "'" +:+ cls +:+ "' object is not iterable" |}.

(** [KeyError] raised by [d[k]] on a missing key; [str] of it is [repr k]. *)
Definition key_error (k : string) : Exn :=
  {| exn_class := "KeyError"; exn_str := "'" +:+ k +:+ "'" |}.

(** [bool(x)] for [x] that is [None] or a string. *)
Definition truthy (x : option string) : bool :=
  match x with
  | None => false
  | Some s => negb (String.eqb s "")
  end.

(** [l[i:]] for a Python integer [i]: a negative start counts from the
    end, and both ends are clamped to the list. *)
Definition slice_from {A : Type} (l : list A) (i : Z) : list A :=
  if (i <? 0)%Z
  then drop (Z.to_nat (Z.max 0 (Z.of_nat (length l) + i))) l
  else drop (Z.to_nat i) l.

(** Whether a byte continues a UTF-8 sequence ([10xxxxxx]); every other
    byte starts a character. *)
Definition continuation (c : Ascii.ascii) : bool :=
  let n := Ascii.nat_of_ascii c in (128 <=? n)%nat && (n <? 192)%nat.

(** [len(s)] for a [str]: the number of characters. *)
Fixpoint py_len (s : string) : nat :=
  match s with
  | EmptyString => 0
  | String c s' => if continuation c then py_len s' else S (py_len s')
  end.

(** [s[:n]] for a [str] and [n ≥ 0]: the first [n] characters. *)
Fixpoint py_take (n : nat) (s : string) : string :=
  match s with
  | EmptyString => EmptyString
  | String c s' =>
      if continuation c then String c (py_take n s')
      else
        match n with
        | 0 => EmptyString
        | S n' => String c (py_take n' s')
        end
  end.

(** [str(n)] for an integer. *)
Definition str_int (n : Z) : string :=
  DecimalString.NilZero.string_of_int (Z.to_int n).

(** [float(n)] for a length [n] (a [Py_ssize_t], below [2^63]). *)
Definition float_of_len (n : nat) : float :=
  PrimFloat.of_uint63 (Uint63.of_Z (Z.of_nat n)).

(** [int(x)] for a float: truncation towards zero.  Python raises on
    infinities and NaN; the quotient of two lengths times 100 is finite, and
    the branch is given the value 0. *)
Definition int_of_float (x : float) : Z :=
  match Prim2SF x with
  | S754_finite s m e =>
      let a := match e with
               | Z0 => Z.pos m
               | Zpos p => Z.shiftl (Z.pos m) (Z.pos p)
               | Zneg p => Z.shiftr (Z.pos m) (Z.pos p)
               end in
      if s then Z.opp a else a
  | _ => 0%Z
  end.

(** ** [workflow/graph.py] *)

Module Graph.

(** [@dataclass class WorkflowState]; the six [Dict[str, Any]] fields are
    created empty and never written. *)
Record WorkflowState := {
  project_id : string;
  requirements : string;
  business_requirements_doc : gmap string string;
  database_design : gmap string string;
  database_scripts : gmap string string;
  apex_application : gmap string string;
  frontend_assets : gmap string string;
  test_results : gmap string string;
  current_phase : string;
  errors : list string;
  completed_phases : list string
}.

Definition class_name : string := "WorkflowState".

(** [WorkflowState(requirements=requirements)]: [project_id] comes from the
    default factory [str(uuid.uuid4())]. *)
Definition new_state (uuid4 requirements : string) : WorkflowState :=
  {| project_id := uuid4;
     requirements := requirements;
     business_requirements_doc := ∅;
     database_design := ∅;
     database_scripts := ∅;
     apex_application := ∅;
     frontend_assets := ∅;
     test_results := ∅;
     current_phase := "initialization";
     errors := [];
     completed_phases := [] |}.

Definition steps : list string :=
  [ "business_analysis"; "database_design"; "database_implementation";
    "apex_development"; "frontend_enhancement"; "testing";
    "project_completion" ].

Definition enter_phase (step : string) (state : WorkflowState) : WorkflowState :=
  {| project_id := project_id state;
     requirements := requirements state;
     business_requirements_doc := business_requirements_doc state;
     database_design := database_design state;
     database_scripts := database_scripts state;
     apex_application := apex_application state;
     frontend_assets := frontend_assets state;
     test_results := test_results state;
     current_phase := step;
     errors := errors state;
     completed_phases := completed_phases state ++ [step] |}.

Definition record_error (e : Exn) (state : WorkflowState) : WorkflowState :=
  {| project_id := project_id state;
     requirements := requirements state;
     business_requirements_doc := business_requirements_doc state;
     database_design := database_design state;
     database_scripts := database_scripts state;
     apex_application := apex_application state;
     frontend_assets := frontend_assets state;
     test_results := test_results state;
     current_phase := current_phase state;
     errors := errors state ++ [exn_str e];
     completed_phases := completed_phases state |}.

Section RunWorkflow.

(** The only effect of a phase is [print(f"Executing phase: {step}")];
    [print line] is [None] when the line is written and [Some e] when
    the write raises [e], an instance of [Exception] (an [OSError] of the
    stream, say). *)
Variable print : string -> option Exn.

(** The [for step in steps] loop inside the [try]: the state reached and
    the exception that left the loop, if any. *)
Fixpoint run_phases (todo : list string) (state : WorkflowState)
  : WorkflowState * option Exn :=
  match todo with
  | [] => (state, None)
  | step :: todo' =>
      let state := enter_phase step state in
      match print ("Executing phase: " +:+ step) with
      | Some e => (state, Some e)
      | None => run_phases todo' state
      end
  end.

(** What the loop writes to standard output: the line of each phase up to
    the first [print] that raises. *)
Fixpoint printed (todo : list string) : list string :=
  match todo with
  | [] => []
  | step :: todo' =>
      match print ("Executing phase: " +:+ step) with
      | Some e => []
      | None => ("Executing phase: " +:+ step) :: printed todo'
      end
  end.

(** [run_workflow(workflow, requirements)]: both the [try] and the
    [except] branch end in [return state]. *)
Definition run_workflow (uuid4 : string) (workflow requirements : string)
  : WorkflowState :=
  let state := new_state uuid4 requirements in
  match run_phases steps state with
  | (state, None) => state
  | (state, Some e) => record_error e state
  end.

End RunWorkflow.

End Graph.

(** ** [app.py] *)

Module App.

(** *** Data *)

(** An entry of [ProjectState.messages]. *)
Record Message := {
  sender : option string;
  content : string;
  timestamp : Time
}.

(** A value of [ProjectState.artifacts]. *)
Record Artifact := {
  a_content : string;
  a_type : string;
  a_created_by : string;
  a_timestamp : Time
}.

(** [class ProjectState]. *)
Record ProjectState := {
  project_id : string;
  requirements : string;
  current_agent : option string;
  status : string;
  started_at : Time;
  completed_at : option Time;
  messages : list Message;
  artifacts : gmap string Artifact;
  result : option string
}.

(** What [run_project_workflow] reads from a step of the workflow: a
    message object ([msg.type], [msg.content]), an artifact dict and the
    state dict, whose keys may all be missing ([.get] with a default). *)
Record StepMessage := { msg_type : string; msg_content : string }.

Record StepArtifact := {
  sa_content : option string;
  sa_type : option string;
  sa_created_by : option string
}.

Record StepState := {
  st_current_agent : option string;
  st_messages : option (list StepMessage);
  st_artifacts : option (list (string * StepArtifact));
  st_completed_steps : option (list string)
}.

Record Step := { state : StepState }.

(** One [next()] on the iterator of the workflow: it yields a step, or the
    stage behind it raises an instance of [Exception] ([Raise]), or it
    raises an exception that is not one, such as [SystemExit] ([Exit]). *)
Inductive StageOutcome :=
| Yield (step : Step)
| Raise (e : Exn)
| Exit (e : Exn).

(** An exception on its way out of a suite: an instance of [Exception],
    which [except Exception] catches, or one it lets through. *)
Inductive Raised :=
| Ordinary (e : Exn)
| Exiting (e : Exn).

(** What the call [run_workflow(project_id, requirements)] evaluates to:
    an iterable, given by the outcomes of its successive stages (a call
    that raises at once is [Generator [Raise e]]), or an instance of a
    class that cannot be iterated. *)
Inductive Returned :=
| Generator (g : list StageOutcome)
| Instance (cls : string).

(** The process: the registry, the clock, the caller's session entry
    ['project_id'] and the arguments of the background threads started. *)
Record World := {
  active_projects : gmap string ProjectState;
  clock : Time;
  session : option string;
  threads : list string
}.

(** *** Attribute assignment *)

Definition set_current_agent (a : option string) (self : ProjectState) : ProjectState :=
  {| project_id := project_id self; requirements := requirements self;
     current_agent := a; status := status self;
     started_at := started_at self; completed_at := completed_at self;
     messages := messages self; artifacts := artifacts self;
     result := result self |}.

Definition set_status (s : string) (self : ProjectState) : ProjectState :=
  {| project_id := project_id self; requirements := requirements self;
     current_agent := current_agent self; status := s;
     started_at := started_at self; completed_at := completed_at self;
     messages := messages self; artifacts := artifacts self;
     result := result self |}.

Definition set_completed_at (c : option Time) (self : ProjectState) : ProjectState :=
  {| project_id := project_id self; requirements := requirements self;
     current_agent := current_agent self; status := status self;
     started_at := started_at self; completed_at := c;
     messages := messages self; artifacts := artifacts self;
     result := result self |}.

Definition set_messages (m : list Message) (self : ProjectState) : ProjectState :=
  {| project_id := project_id self; requirements := requirements self;
     current_agent := current_agent self; status := status self;
     started_at := started_at self; completed_at := completed_at self;
     messages := m; artifacts := artifacts self;
     result := result self |}.

Definition set_artifacts (a : gmap string Artifact) (self : ProjectState) : ProjectState :=
  {| project_id := project_id self; requirements := requirements self;
     current_agent := current_agent self; status := status self;
     started_at := started_at self; completed_at := completed_at self;
     messages := messages self; artifacts := a;
     result := result self |}.

Definition set_result (r : option string) (self : ProjectState) : ProjectState :=
  {| project_id := project_id self; requirements := requirements self;
     current_agent := current_agent self; status := status self;
     started_at := started_at self; completed_at := completed_at self;
     messages := messages self; artifacts := artifacts self;
     result := r |}.

(** *** [ProjectState] methods

    A method takes the object and the clock and returns both as the call
    leaves them; all four return [None]. *)

(** [ProjectState.__init__]. *)
Definition init (project_id requirements : string) (now : Time)
  : ProjectState * Time :=
  ({| project_id := project_id; requirements := requirements;
      current_agent := None; status := "initializing";
      started_at := now; completed_at := None;
      messages := []; artifacts := ∅; result := None |}, S now).

(** [ProjectState.add_message]. *)
Definition add_message (self : ProjectState) (sender : option string)
    (content : string) (timestamp : option Time) (now : Time)
  : ProjectState * Time :=
  let '(timestamp, now) :=
    match timestamp with
    | None => (now, S now)
    | Some ts => (ts, now)
    end in
  (set_messages
     (messages self ++
        [{| sender := sender; content := content; timestamp := timestamp |}])
     self, now).

(** [ProjectState.add_artifact]: an unconditional store under [name]. *)
Definition add_artifact (self : ProjectState) (name content artifact_type agent : string)
    (now : Time) : ProjectState * Time :=
  (set_artifacts
     (<[name := {| a_content := content; a_type := artifact_type;
                   a_created_by := agent; a_timestamp := now |}]>
        (artifacts self))
     self, S now).

(** [ProjectState.update_status]. *)
Definition update_status (self : ProjectState) (status : string) (now : Time)
  : ProjectState * Time :=
  let self := set_status status self in
  if String.eqb status "completed"
  then (set_completed_at (Some now) self, S now)
  else (self, now).

(** *** The body of the loop of [run_project_workflow] *)

Definition workflow_steps : list string :=
  [ "business_analysis"; "database_design"; "database_implementation";
    "apex_development"; "frontend_enhancement"; "qa_testing";
    "project_completion" ].

(** [for msg in new_messages: ...]. *)
Fixpoint add_new_messages (new_messages : list StepMessage)
    (project : ProjectState) (now : Time) : ProjectState * Time :=
  match new_messages with
  | [] => (project, now)
  | msg :: rest =>
      let sender :=
        if String.eqb (msg_type msg) "human" then Some "User"
        else current_agent project in
      let '(project, now) :=
        add_message project sender (msg_content msg) None now in
      add_new_messages rest project now
  end.

(** [for name, artifact in artifacts.items(): if name not in
    project.artifacts: project.add_artifact(...)]. *)
Fixpoint merge_artifacts (items : list (string * StepArtifact))
    (project : ProjectState) (now : Time) : ProjectState * Time :=
  match items with
  | [] => (project, now)
  | (name, artifact) :: rest =>
      let '(project, now) :=
        match artifacts project !! name with
        | Some _ => (project, now)
        | None =>
            add_artifact project name
              (default "" (sa_content artifact))
              (default "" (sa_type artifact))
              (default "" (sa_created_by artifact)) now
        end in
      merge_artifacts rest project now
  end.

(** [(len(completed_steps) / len(workflow_steps)) * 100], in binary64. *)
Definition progress (completed_steps : list string) : float :=
  PrimFloat.mul
    (PrimFloat.div (float_of_len (length completed_steps))
                   (float_of_len (length workflow_steps)))
    (float_of_len 100).

(** [f"In progress - {int(progress)}% complete"]. *)
Definition progress_status (completed_steps : list string) : string :=
  "In progress - " +:+ str_int (int_of_float (progress completed_steps))
    +:+ "% complete".

(** Read off the last lines of the loop body: the number a step makes the
    loop publish, if any, and the number of completed steps it reports. *)
Definition published (step : Step) : option Z :=
  match default [] (st_completed_steps (state step)) with
  | [] => None
  | l => Some (int_of_float (progress l))
  end.

Definition completed_count (step : Step) : nat :=
  length (default [] (st_completed_steps (state step))).

Definition process_step (step : Step) (project : ProjectState) (now : Time)
  : ProjectState * Time :=
  let state := state step in
  let project :=
    set_current_agent (Some (default "" (st_current_agent state))) project in
  let msgs := default [] (st_messages state) in
  let '(project, now) :=
    if negb (bool_decide (msgs = []))
       && (length (messages project) <? length msgs)%nat
    then add_new_messages (drop (length (messages project)) msgs) project now
    else (project, now) in
  let '(project, now) :=
    merge_artifacts (default [] (st_artifacts state)) project now in
  let completed_steps := default [] (st_completed_steps state) in
  if negb (bool_decide (completed_steps = []))
  then update_status project (progress_status completed_steps) now
  else (project, now).

(** [for step in <generator>: ...]: the object and clock when the loop is
    left, and the exception that left it, if any.  Stages after one that
    raises are never asked for. *)
Fixpoint for_steps (g : list StageOutcome) (project : ProjectState) (now : Time)
  : ProjectState * Time * option Raised :=
  match g with
  | [] => (project, now, None)
  | Raise e :: _ => (project, now, Some (Ordinary e))
  | Exit e :: _ => (project, now, Some (Exiting e))
  | Yield step :: g' =>
      let '(project, now) := process_step step project now in
      for_steps g' project now
  end.

(** *** [run_project_workflow] *)

(** Write back the object [active_projects[project_id]] and the clock. *)
Definition commit (project_id : string) (project : ProjectState) (now : Time)
    (w : World) : World :=
  {| active_projects := <[project_id := project]> (active_projects w);
     clock := now; session := session w; threads := threads w |}.

(** How a call ends: it returns, or an exception leaves it. *)
Inductive Outcome :=
| Returns (w : World)
| Escapes (e : Exn) (w : World).

Section Engine.

(** [from workflow.graph import run_workflow], as the engine uses it. *)
Variable run_workflow : string -> string -> Returned.

(** The [try] suite. *)
Definition try_suite (project_id : string) (project : ProjectState)
    (now : Time) : ProjectState * Time * option Raised :=
  let '(project, now) := update_status project "running" now in
  match run_workflow project_id (requirements project) with
  | Instance cls => (project, now, Some (Ordinary (not_iterable cls)))
  | Generator g =>
      match for_steps g project now with
      | (project, now, Some e) => (project, now, Some e)
      | (project, now, None) =>
          let project :=
            set_result (Some "Project completed successfully.") project in
          let '(project, now) := update_status project "completed" now in
          (project, now, None)
      end
  end.

(** The [except Exception as e] suite. *)
Definition except_suite (e : Exn) (project : ProjectState) (now : Time)
  : ProjectState * Time :=
  let '(project, now) :=
    add_message project (Some "System") ("Error: " +:+ exn_str e) None now in
  update_status project "error" now.

Definition run_project_workflow (project_id : string) (w : World) : Outcome :=
  match active_projects w !! project_id with
  | None => Escapes (key_error project_id) w
  | Some project =>
      match try_suite project_id project (clock w) with
      | (project, now, None) => Returns (commit project_id project now w)
      | (project, now, Some (Ordinary e)) =>
          let '(project, now) := except_suite e project now in
          Returns (commit project_id project now w)
      | (project, now, Some (Exiting e)) =>
          Escapes e (commit project_id project now w)
      end
  end.

End Engine.

(** The project object and the clock after each pass through the loop. *)
Fixpoint loop_states (g : list StageOutcome) (project : ProjectState) (now : Time)
  : list (ProjectState * Time) :=
  match g with
  | [] => []
  | Raise e :: _ => []
  | Exit e :: _ => []
  | Yield step :: g' =>
      let r := process_step step project now in
      r :: loop_states g' r.1 r.2
  end.

(** The states of the project object between the steps of the background
    task: after [update_status("running")], after each pass through the
    loop, and after the last update on leaving the [try] statement (none
    when an exception that is not an [Exception] ends the task).  The states
    inside a pass or a method call are those of [engine_writes].  No other
    writer of the project runs in between. *)
Definition engine_states (run_workflow : string -> string -> Returned)
    (project_id : string) (project : ProjectState) (now : Time)
  : list (ProjectState * Time) :=
  let r := update_status project "running" now in
  r :: match run_workflow project_id (requirements r.1) with
       | Instance cls => [except_suite (not_iterable cls) r.1 r.2]
       | Generator g =>
           loop_states g r.1 r.2 ++
           match for_steps g r.1 r.2 with
           | (p, t, Some (Ordinary e)) => [except_suite e p t]
           | (p, t, Some (Exiting e)) => []
           | (p, t, None) =>
               [ update_status
                   (set_result (Some "Project completed successfully.") p)
                   "completed" t ]
           end
       end.

(** *** The attribute stores of the task, one by one

    A reader in another thread can see the object between any two stores;
    these are the states of the object after each store of the task. *)

(** [update_status]: [self.status = status], then, for ["completed"],
    [self.completed_at = datetime.now()]. *)
Definition update_status_writes (self : ProjectState) (status : string)
    (now : Time) : list ProjectState :=
  let self := set_status status self in
  if String.eqb status "completed"
  then [self; set_completed_at (Some now) self]
  else [self].

Fixpoint add_new_messages_writes (new_messages : list StepMessage)
    (project : ProjectState) (now : Time) : list ProjectState :=
  match new_messages with
  | [] => []
  | msg :: rest =>
      let sender :=
        if String.eqb (msg_type msg) "human" then Some "User"
        else current_agent project in
      let '(project, now) :=
        add_message project sender (msg_content msg) None now in
      project :: add_new_messages_writes rest project now
  end.

Fixpoint merge_artifacts_writes (items : list (string * StepArtifact))
    (project : ProjectState) (now : Time) : list ProjectState :=
  match items with
  | [] => []
  | (name, artifact) :: rest =>
      match artifacts project !! name with
      | Some _ => merge_artifacts_writes rest project now
      | None =>
          let '(project, now) :=
            add_artifact project name
              (default "" (sa_content artifact))
              (default "" (sa_type artifact))
              (default "" (sa_created_by artifact)) now in
          project :: merge_artifacts_writes rest project now
      end
  end.

Definition process_step_writes (step : Step) (project : ProjectState)
    (now : Time) : list ProjectState :=
  let state := state step in
  let project :=
    set_current_agent (Some (default "" (st_current_agent state))) project in
  let msgs := default [] (st_messages state) in
  let grown :=
    negb (bool_decide (msgs = []))
    && (length (messages project) <? length msgs)%nat in
  let new_messages := drop (length (messages project)) msgs in
  let writes1 :=
    if grown then add_new_messages_writes new_messages project now else [] in
  let '(project1, now1) :=
    if grown then add_new_messages new_messages project now
    else (project, now) in
  let items := default [] (st_artifacts state) in
  let writes2 := merge_artifacts_writes items project1 now1 in
  let '(project2, now2) := merge_artifacts items project1 now1 in
  let completed_steps := default [] (st_completed_steps state) in
  let writes3 :=
    if negb (bool_decide (completed_steps = []))
    then update_status_writes project2 (progress_status completed_steps) now2
    else [] in
  project :: writes1 ++ writes2 ++ writes3.

Fixpoint loop_writes (g : list StageOutcome) (project : ProjectState)
    (now : Time) : list ProjectState :=
  match g with
  | [] => []
  | Raise e :: _ => []
  | Exit e :: _ => []
  | Yield step :: g' =>
      let r := process_step step project now in
      process_step_writes step project now ++ loop_writes g' r.1 r.2
  end.

Definition except_suite_writes (e : Exn) (project : ProjectState) (now : Time)
  : list ProjectState :=
  let '(project, now) :=
    add_message project (Some "System") ("Error: " +:+ exn_str e) None now in
  project :: update_status_writes project "error" now.

(** Every state of the project object during a run of the task. *)
Definition engine_writes (run_workflow : string -> string -> Returned)
    (project_id : string) (project : ProjectState) (now : Time)
  : list ProjectState :=
  let r := update_status project "running" now in
  update_status_writes project "running" now ++
  match run_workflow project_id (requirements r.1) with
  | Instance cls => except_suite_writes (not_iterable cls) r.1 r.2
  | Generator g =>
      loop_writes g r.1 r.2 ++
      match for_steps g r.1 r.2 with
      | (p, t, Some (Ordinary e)) => except_suite_writes e p t
      | (p, t, Some (Exiting e)) => []
      | (p, t, None) =>
          let p := set_result (Some "Project completed successfully.") p in
          p :: update_status_writes p "completed" t
      end
  end.

(** The progress a status string shows: [shows_progress project n] when the
    status of [project] is the one the loop publishes for the value [n]. *)
Definition shows_progress (project : ProjectState) (n : Z) : bool :=
  String.eqb (status project)
    ("In progress - " +:+ str_int n +:+ "% complete").

(** [run_workflow] of [workflow/graph.py] as [app.py] calls it: the first
    argument is the project identifier, and the value is an instance of the
    dataclass [WorkflowState], which defines no [__iter__]. *)
Definition type_name (o : Graph.WorkflowState) : string := Graph.class_name.

Definition graph_run_workflow (print : string -> option Exn) (uuid4 : string)
    (project_id requirements : string) : Returned :=
  Instance (type_name (Graph.run_workflow print uuid4 project_id requirements)).

(** *** Endpoints *)

Inductive Response (A : Type) :=
| Ok (body : A)
| Error (code : nat) (error : string).
Arguments Ok {A} body.
Arguments Error {A} code error.

Record StartBody := {
  start_project_id : string;
  start_status : string;
  start_message : string
}.

Definition initial_message : string :=
  "Project initialized. Starting business analysis phase...".

(** [POST /api/start_project]; the body of the request is a JSON object,
    [requirements] is [data.get('requirements')], a text or [None], and
    [uuid4] is the value [str(uuid.uuid4())] takes in this call. *)
Definition start_project (uuid4 : string) (requirements : option string)
    (w : World) : Response StartBody * World :=
  match requirements with
  | None => (Error 400 "No requirements provided", w)
  | Some text =>
      if negb (truthy requirements)
      then (Error 400 "No requirements provided", w)
      else
        let project_id := uuid4 in
        let '(project, now) := init project_id text (clock w) in
        let '(project, now) :=
          add_message project (Some "System") initial_message None now in
        (Ok {| start_project_id := project_id;
               start_status := "initializing";
               start_message := initial_message |},
         {| active_projects := <[project_id := project]> (active_projects w);
            clock := now;
            session := Some project_id;
            threads := threads w ++ [project_id] |})
  end.

Record StatusBody := {
  status_project_id : string;
  status_status : string;
  status_current_agent : option string;
  status_started_at : Time;
  status_completed_at : option Time;
  message_count : nat;
  artifact_count : nat
}.

(** The body [project_status] builds from the object [project] refers to.
    The attributes are read one after the other, in the order of the dict
    display; [at_read i] is the object as it is when read number [i]
    happens ([completed_at] is read for the test and again for the
    value). *)
Definition status_body (project_id : string) (at_read : nat -> ProjectState)
  : StatusBody :=
  {| status_project_id := project_id;
     status_status := status (at_read 0);
     status_current_agent := current_agent (at_read 1);
     status_started_at := started_at (at_read 2);
     status_completed_at :=
       match completed_at (at_read 3) with
       | Some _ => completed_at (at_read 4)
       | None => None
       end;
     message_count := length (messages (at_read 5));
     artifact_count := size (artifacts (at_read 6)) |}.

(** The object as a request sees it when the background task runs, from
    start to end, just before read number [k] of the request: [before] at
    the reads before [k], [after] from [k] on. *)
Definition preempted_at (k : nat) (before after : ProjectState) (i : nat)
  : ProjectState :=
  if (i <? k)%nat then before else after.

(** [GET /api/project_status/<project_id>], run with no other thread in
    between. *)
Definition project_status (project_id : string) (w : World)
  : Response StatusBody :=
  match active_projects w !! project_id with
  | None => Error 404 "Project not found"
  | Some project => Ok (status_body project_id (fun _ => project))
  end.

Record MessagesBody := {
  messages_project_id : string;
  new_messages : list Message;
  last_id : Z
}.

(** [GET /api/project_messages/<project_id>]; [last_id] is
    [request.args.get('last_id', 0, type=int)] before the default applies:
    [None] when the parameter is missing or is not an integer. *)
Definition project_messages (project_id : string) (last_id : option Z)
    (w : World) : Response MessagesBody :=
  match active_projects w !! project_id with
  | None => Error 404 "Project not found"
  | Some project =>
      let last_id := default 0%Z last_id in
      let new_messages := slice_from (messages project) last_id in
      Ok {| messages_project_id := project_id;
            new_messages := new_messages;
            last_id := (last_id + Z.of_nat (length new_messages))%Z |}
  end.

Record SendBody := { send_status : string; send_message_text : string }.

(** [POST /api/send_message]. *)
Definition send_message (project_id message : option string) (w : World)
  : Response SendBody * World :=
  match project_id, message with
  | Some pid, Some text =>
      if negb (truthy project_id) || negb (truthy message)
      then (Error 400 "Project ID and message required", w)
      else
        match active_projects w !! pid with
        | None => (Error 404 "Project not found", w)
        | Some project =>
            let '(project, now) :=
              add_message project (Some "User") text None (clock w) in
            (Ok {| send_status := "success";
                   send_message_text := "Message received" |},
             commit pid project now w)
        end
  | _, _ => (Error 400 "Project ID and message required", w)
  end.

Record ArtifactsBody := {
  artifacts_project_id : string;
  artifacts_of : gmap string Artifact
}.

(** [GET /api/project_artifacts/<project_id>]. *)
Definition project_artifacts (project_id : string) (w : World)
  : Response ArtifactsBody :=
  match active_projects w !! project_id with
  | None => Error 404 "Project not found"
  | Some project =>
      Ok {| artifacts_project_id := project_id;
            artifacts_of := artifacts project |}
  end.

Record ArtifactBody := {
  artifact_project_id : string;
  artifact_name : string;
  artifact : Artifact
}.

(** [GET /api/artifact/<project_id>/<artifact_name>]. *)
Definition get_artifact (project_id artifact_name : string) (w : World)
  : Response ArtifactBody :=
  match active_projects w !! project_id with
  | None => Error 404 "Project not found"
  | Some project =>
      match artifacts project !! artifact_name with
      | None => Error 404 "Artifact not found"
      | Some a =>
          Ok {| artifact_project_id := project_id;
                artifact_name := artifact_name;
                artifact := a |}
      end
  end.

(** [GET /]: [render_template('index.html')], a page without arguments. *)
Inductive Page :=
| IndexPage
| ChatPage (project_id : string)
| ErrorPage (error : string)
| ResultsPage (project : ProjectState) (artifacts : gmap string Artifact).

Definition index (w : World) : Page := IndexPage.

(** [GET /chat]; [uuid4] is the value [str(uuid.uuid4())] would take. *)
Definition chat (uuid4 : string) (w : World) : Page * World :=
  match session w with
  | None =>
      let project_id := uuid4 in
      (ChatPage project_id,
       {| active_projects := active_projects w; clock := clock w;
          session := Some project_id; threads := threads w |})
  | Some project_id => (ChatPage project_id, w)
  end.

(** [GET /results/<project_id>]. *)
Definition results (project_id : string) (w : World) : Page :=
  match active_projects w !! project_id with
  | None => ErrorPage "Project not found"
  | Some project =>
      if negb (String.eqb (status project) "completed")
      then ErrorPage "Project not yet completed"
      else ResultsPage project (artifacts project)
  end.

(** [grows a b]: the project [b] extends the project [a]: the log of [a]
    is a prefix of the log of [b], every artifact of [a] is in [b] unchanged,
    and identifier, requirements and start time are the same. *)
Definition grows (a b : ProjectState) : Prop :=
  messages a `prefix_of` messages b ∧
  artifacts a ⊆ artifacts b ∧
  project_id a = project_id b ∧
  requirements a = requirements b ∧
  started_at a = started_at b.


(** A status is terminal when it is ["completed"] or ["error"]. *)
Definition terminal (s : string) : bool :=
  String.eqb s "completed" || String.eqb s "error".

End App.

(** ** [main.py] *)

Module Main.

(** How a computation that may raise ends. *)
Inductive Try (A : Type) :=
| Done (a : A)
| Failed (e : Exn).
Arguments Done {A} a.
Arguments Failed {A} e.

Definition newline : string := String (Ascii.ascii_of_nat 10) "".

(** [c * n] for a one-character string [c]. *)
Fixpoint times (c : string) (n : nat) : string :=
  match n with
  | 0 => ""
  | S n' => c +:+ times c n'
  end.

(** [sub in s] for strings. *)
Fixpoint contains (sub s : string) : bool :=
  String.prefix sub s ||
  match s with
  | EmptyString => false
  | String _ s' => contains sub s'
  end.

Definition ends_with_slash (s : string) : bool :=
  match String.length s with
  | 0 => false
  | S n => String.eqb (String.substring n 1 s) "/"
  end.

(** [os.path.join(a, b)] on POSIX. *)
Definition path_join (a b : string) : string :=
  if String.prefix "/" b then b
  else if String.eqb a "" || ends_with_slash a then a +:+ b
  else a +:+ "/" +:+ b.

Definition eof_error : Exn :=
  {| exn_class := "EOFError"; exn_str := "EOF when reading a line" |}.

Definition file_not_found (path : string) : Exn :=
  {| exn_class := "FileNotFoundError";
     exn_str := "[Errno 2] No such file or directory: '" +:+ path +:+ "'" |}.

(** [iter(input, "")] run to its end: the lines read before the first empty
    line and the input left after it, or [None] when the input ends first
    and [input()] raises [EOFError]. *)
Fixpoint read_lines (stdin : list string) : option (list string * list string) :=
  match stdin with
  | [] => None
  | line :: rest =>
      if String.eqb line "" then Some ([], rest)
      else
        match read_lines rest with
        | Some (lines, rest') => Some (line :: lines, rest')
        | None => None
        end
  end.

Definition prompt : string :=
  "Please enter your business requirements (press Ctrl+D or Ctrl+Z on a new line to finish):".

(** [read_requirements(file_path)]: the value or the exception, the input
    left, and what was printed.  [files] holds the readable files. *)
Definition read_requirements (file_path : option string)
    (files : gmap string string) (stdin : list string)
  : Try string * list string * list string :=
  if negb (truthy file_path)
  then
    match read_lines stdin with
    | Some (lines, rest) => (Done (String.concat newline lines), rest, [prompt])
    | None => (Failed eof_error, [], [prompt])
    end
  else
    let path := default "" file_path in
    match files !! path with
    | Some text => (Done text, stdin, [])
    | None => (Failed (file_not_found path), stdin, [])
    end.

Definition workflow_steps : list string :=
  [ "business_analysis"; "database_design"; "database_implementation";
    "apex_development"; "frontend_enhancement"; "qa_testing";
    "project_completion" ].

(** The variables of [main] that the loop updates, and the lines printed. *)
Record Tracker := {
  artifacts : list (string * App.StepArtifact);
  completed_steps : list string;
  stdout : list string
}.

Definition print (line : string) (s : Tracker) : Tracker :=
  {| artifacts := artifacts s; completed_steps := completed_steps s;
     stdout := stdout s ++ [line] |}.

(** [for name, artifact in state_artifacts.items(): if name not in
    artifacts: ...]. *)
Fixpoint collect_artifacts (items : list (string * App.StepArtifact))
    (s : Tracker) : Tracker :=
  match items with
  | [] => s
  | (name, artifact) :: rest =>
      let s :=
        if bool_decide (name ∈ (artifacts s).*1) then s
        else
          print ("Created artifact: " +:+ name +:+ " ("
                   +:+ default "" (App.sa_type artifact) +:+ ")")
            {| artifacts := artifacts s ++ [(name, artifact)];
               completed_steps := completed_steps s;
               stdout := stdout s |} in
      collect_artifacts rest s
  end.

(** [(len(completed_steps) / len(workflow_steps)) * 100]. *)
Definition progress (completed_steps : list string) : float :=
  PrimFloat.mul
    (PrimFloat.div (float_of_len (length completed_steps))
                   (float_of_len (length workflow_steps)))
    (float_of_len 100).

(** [for step_name in state_completed_steps: if step_name not in
    completed_steps: ...]. *)
Fixpoint mark_completed (names : list string) (s : Tracker) : Tracker :=
  match names with
  | [] => s
  | step_name :: rest =>
      let s :=
        if bool_decide (step_name ∈ completed_steps s) then s
        else
          let completed := completed_steps s ++ [step_name] in
          print ("Progress: " +:+ str_int (int_of_float (progress completed))
                   +:+ "% - Completed " +:+ step_name)
            {| artifacts := artifacts s; completed_steps := completed;
               stdout := stdout s |} in
      mark_completed rest s
  end.

(** The body of [for step in run_workflow(project_id, requirements)]. *)
Definition track_step (step : App.Step) (s : Tracker) : Tracker :=
  let state := App.state step in
  let current_agent := default "" (App.st_current_agent state) in
  let s :=
    if negb (String.eqb current_agent "")
    then print (newline +:+ "--- Current agent: " +:+ current_agent +:+ " ---") s
    else s in
  let messages := default [] (App.st_messages state) in
  let s :=
    match last messages with
    | None => s
    | Some latest_message =>
        let sender :=
          if String.eqb (App.msg_type latest_message) "human" then "User"
          else current_agent in
        let text := App.msg_content latest_message in
        print (if (100 <? py_len text)%nat
               then sender +:+ ": " +:+ py_take 100 text +:+ "..."
               else text) s
    end in
  let s := collect_artifacts (default [] (App.st_artifacts state)) s in
  mark_completed (default [] (App.st_completed_steps state)) s.

Fixpoint for_steps (g : list App.StageOutcome) (s : Tracker)
  : Tracker * option Exn :=
  match g with
  | [] => (s, None)
  | App.Raise e :: _ => (s, Some e)
  | App.Exit e :: _ => (s, Some e)
  | App.Yield step :: g' => for_steps g' (track_step step s)
  end.

(** What [main] writes: a text file, or the JSON index of the artifacts. *)
Record IndexEntry := {
  entry_type : string;
  entry_created_by : string;
  entry_file : string
}.

Inductive FileContent :=
| Text (text : string)
| Index (entries : list (string * IndexEntry)).

(** The value [file_extension] gets in one pass of the saving loop. *)
Definition file_extension_for (name : string) (artifact : App.StepArtifact)
  : string :=
  if bool_decide (App.sa_type artifact = Some "code")
  then (if contains "database" name then ".sql" else ".js")
  else if bool_decide (App.sa_type artifact = Some "diagram")
  then ".mmd"
  else ".md".

(** The saving loop: the files written, in order, and the value the
    variable [file_extension] is left with ([None]: never assigned). *)
Fixpoint save_artifacts_loop (artifacts_dir : string)
    (items : list (string * App.StepArtifact)) (file_extension : option string)
  : list (string * FileContent) * option string :=
  match items with
  | [] => ([], file_extension)
  | (name, artifact) :: rest =>
      let file_extension := file_extension_for name artifact in
      let r := save_artifacts_loop artifacts_dir rest (Some file_extension) in
      ((path_join artifacts_dir (name +:+ file_extension),
        Text (default "" (App.sa_content artifact))) :: r.1, r.2)
  end.

(** The dict comprehension behind [index.json]: it reads the variable
    [file_extension] of [main], as the saving loop left it. *)
Definition simplified_artifacts (items : list (string * App.StepArtifact))
    (file_extension : string) : list (string * IndexEntry) :=
  (λ '(name, artifact),
     (name, {| entry_type := default "" (App.sa_type artifact);
               entry_created_by := default "" (App.sa_created_by artifact);
               entry_file := name +:+ file_extension |})) <$> items.

Record Args := {
  args_requirements : option string;
  args_output : option string;
  args_save_artifacts : bool
}.

(** [artifacts.get("project_report", {}).get("content", ...)]. *)
Definition final_report (items : list (string * App.StepArtifact)) : string :=
  match list_find (λ item, item.1 = "project_report") items with
  | Some (_, (_, artifact)) =>
      default "Project completed with no final report." (App.sa_content artifact)
  | None => "Project completed with no final report."
  end.

(** The part of [main] after the loop, when [args.output] is set: the files
    written, in order, and the lines printed.  Every [open(..., 'w')] is
    taken to succeed.  The comprehension is evaluated for a non-empty dict
    only, after the loop has assigned [file_extension]. *)
Definition save_outputs (output : string) (save_artifacts : bool)
    (items : list (string * App.StepArtifact))
  : list (string * FileContent) * list string :=
  let report_path := path_join output "final_report.md" in
  let written := [(report_path, Text (final_report items))] in
  let printed := ["Final report saved to " +:+ report_path] in
  if save_artifacts
  then
    let artifacts_dir := path_join output "artifacts" in
    let r := save_artifacts_loop artifacts_dir items None in
    (written ++ r.1 ++
       [(path_join artifacts_dir "index.json",
         Index (simplified_artifacts items (default "" r.2)))],
     printed ++ ["All artifacts saved to " +:+ artifacts_dir])
  else (written, printed).

Record Run := {
  run_stdout : list string;
  run_written : list (string * FileContent)
}.

(** The lines [main] prints before it calls [run_workflow]. *)
Definition header (project_id requirements : string) : list string :=
  [ "Starting Oracle APEX development process (Project ID: "
      +:+ project_id +:+ ")...";
    "Using LangChain + LangGraph for the workflow";
    newline +:+ times "-" 80;
    "BUSINESS REQUIREMENTS:";
    times "-" 80;
    requirements;
    times "-" 80 +:+ newline;
    "Initializing workflow..." ].

(** [run_workflow] of [workflow/graph.py] as [main.py] calls it: the lines
    its phases print before it returns, and the value it returns. *)
Definition graph_run_workflow (print : string -> option Exn) (uuid4 : string)
    (project_id requirements : string) : list string * App.Returned :=
  (Graph.printed print Graph.steps,
   App.graph_run_workflow print uuid4 project_id requirements).

Section MainBody.

(** [from workflow.graph import run_workflow]: what the call prints before
    it returns, and what it evaluates to. *)
Variable run_workflow : string -> string -> list string * App.Returned.

(** [main()], from the line that computes [project_id] on; [project_id] is
    the string built from the clock, [requirements] the text read. *)
Definition main_body (args : Args) (project_id requirements : string)
  : Run * option Exn :=
  let '(lines, returned) := run_workflow project_id requirements in
  let s :=
    {| artifacts := []; completed_steps := [];
       stdout := header project_id requirements ++ lines |} in
  match returned with
  | App.Instance cls =>
      ({| run_stdout := stdout s; run_written := [] |},
       Some (not_iterable cls))
  | App.Generator g =>
      match for_steps g s with
      | (s, Some e) => ({| run_stdout := stdout s; run_written := [] |}, Some e)
      | (s, None) =>
          let out :=
            stdout s ++
            [ newline +:+ times "=" 80;
              "DEVELOPMENT PROCESS COMPLETED";
              times "=" 80 ] in
          let '(written, out) :=
            if truthy (args_output args)
            then
              let r := save_outputs (default "" (args_output args))
                         (args_save_artifacts args) (artifacts s) in
              (r.1, out ++ r.2)
            else ([], out) in
          ({| run_stdout := out ++ [newline +:+ "Process completed!"];
              run_written := written |}, None)
      end
  end.

(** [main()] after [parse_args()]. *)
Definition main (args : Args) (project_id : string)
    (files : gmap string string) (stdin : list string) : Run * option Exn :=
  match read_requirements (args_requirements args) files stdin with
  | (Failed e, _, printed) =>
      ({| run_stdout := printed; run_written := [] |}, Some e)
  | (Done requirements, _, printed) =>
      let r := main_body args project_id requirements in
      ({| run_stdout := printed ++ run_stdout r.1;
          run_written := run_written r.1 |}, r.2)
  end.

End MainBody.

End Main.

(** ** Sample data *)

Module Sample.
Import App.

(** A [print] that always succeeds. *)
Definition print_ok (line : string) : option Exn := None.

Definition empty_world : World :=
  {| active_projects := ∅; clock := 0; session := None; threads := [] |}.

(** The process after one [start_project] request. *)
Definition started : World :=
  (start_project "p1" (Some "Build a task tracker") empty_world).2.

(** The project object [start_project] has registered. *)
Definition fresh_project : ProjectState :=
  (add_message (init "p1" "Build a task tracker" 0).1 (Some "System")
     initial_message None 1).1.

(** The process once the background task of ["p1"] has ended. *)
Definition ended : World :=
  match run_project_workflow (graph_run_workflow print_ok "g1") "p1" started with
  | Returns w => w
  | Escapes _ w => w
  end.

Definition step_with (agent : string) (msgs : list StepMessage)
    (arts : list (string * StepArtifact)) (completed : list string) : Step :=
  {| state := {| st_current_agent := Some agent;
                 st_messages := Some msgs;
                 st_artifacts := Some arts;
                 st_completed_steps := Some completed |} |}.

Definition text_artifact (content : string) : StepArtifact :=
  {| sa_content := Some content; sa_type := Some "document";
     sa_created_by := Some "business_analyst" |}.

(** A step that reports the first [k] steps of the pipeline as completed. *)
Definition reporting (k : nat) : Step :=
  step_with "project_manager" [] [] (take k workflow_steps).

Definition timeout : Exn :=
  {| exn_class := "TimeoutError"; exn_str := "connection timeout" |}.

(** A [print] whose stream fails at the second phase. *)
Definition print_failing (line : string) : option Exn :=
  if String.eqb line "Executing phase: database_design" then Some timeout
  else None.

Definition system_exit : Exn :=
  {| exn_class := "SystemExit"; exn_str := "1" |}.

(** A workflow that reports one step and then ends the interpreter. *)
Definition exiting (project_id requirements : string) : Returned :=
  Generator [Yield (reporting 1); Exit system_exit].

(** A workflow that yields seven steps, the [k]-th reporting the first [k]
    steps of the pipeline as completed. *)
Definition seven_steps (project_id requirements : string) : Returned :=
  Generator (Yield <$> (reporting <$> seq 1 7)).

(** A workflow whose count of completed steps goes from two back to one. *)
Definition shrinking (project_id requirements : string) : Returned :=
  Generator [Yield (reporting 2); Yield (reporting 1)].

(** A workflow that reports all seven steps and then fails. *)
Definition failing_late (project_id requirements : string) : Returned :=
  Generator [Yield (reporting 7); Raise timeout].

(** The states the object of ["p1"] goes through: as registered, then as
    the background task leaves it after each of its updates. *)
Definition history : list ProjectState :=
  fresh_project
  :: (fst <$> engine_states (graph_run_workflow print_ok "g1") "p1"
                fresh_project 2).

(** A [project_status] request whose first five attribute reads happen
    before the background task runs and whose last two happen after it
    ended. *)
Definition torn_read (i : nat) : ProjectState :=
  default fresh_project (history !! (if (i <? 5)%nat then 0 else 2)).

(** A step whose list of completed steps names one step twice. *)
Definition over_reporting : Step :=
  step_with "project_manager" [] [] (workflow_steps ++ ["business_analysis"]).

(** A workflow of two steps; the first carries the artifact ["brd"]. *)
Definition two_steps (project_id requirements : string) : Returned :=
  Generator
    [ Yield (step_with "business_analyst" []
               [("brd", text_artifact "first")] ["business_analysis"]);
      Yield (step_with "database_designer" []
               [("brd", text_artifact "second")]
               ["business_analysis"; "database_design"]) ].

End Sample.

Import App.

(** ** First writer wins: [add_artifact] and the merge of the engine *)

Section Artifacts.

Implicit Types (project : ProjectState) (now : Time) (name : string).

Lemma add_message_artifacts project s c ts now :
  artifacts (add_message project s c ts now).1 = artifacts project.
Proof. by destruct ts. Qed.

Lemma update_status_artifacts project s now :
  artifacts (update_status project s now).1 = artifacts project.
Proof. unfold update_status. by destruct (String.eqb s "completed"). Qed.

Lemma add_new_messages_artifacts msgs project now :
  artifacts (add_new_messages msgs project now).1 = artifacts project.
Proof.
  revert project now. induction msgs as [|m msgs IH]; intros project now; [done|].
  cbn [add_new_messages].
  destruct (add_message project _ (msg_content m) None now) as [p t] eqn:E.
  rewrite IH. by apply (f_equal fst) in E; cbn in E; subst p.
Qed.

Lemma add_artifact_lookup project name content ty agent now :
  artifacts (add_artifact project name content ty agent now).1 !! name
  = Some {| a_content := content; a_type := ty; a_created_by := agent;
            a_timestamp := now |}.
Proof. cbn. apply lookup_insert_eq. Qed.

Lemma merge_artifacts_keeps items project now name a :
  artifacts project !! name = Some a ->
  artifacts (merge_artifacts items project now).1 !! name = Some a.
Proof.
  revert project now.
  induction items as [|[n art] items IH]; intros project now Hin; [done|].
  cbn [merge_artifacts].
  destruct (artifacts project !! n) eqn:En.
  - by apply IH.
  - apply IH. cbn. rewrite lookup_insert_ne; [done|]. congruence.
Qed.

Lemma merge_artifacts_first items1 name art items2 project now :
  artifacts project !! name = None ->
  name ∉ items1.*1 ->
  artifacts (merge_artifacts (items1 ++ (name, art) :: items2) project now).1
    !! name
  = Some {| a_content := default "" (sa_content art);
            a_type := default "" (sa_type art);
            a_created_by := default "" (sa_created_by art);
            a_timestamp :=
              (merge_artifacts items1 project now).2 |}.
Proof.
  revert project now.
  induction items1 as [|[n a1] items1 IH]; intros project now Hout Hnotin.
  - cbn [app merge_artifacts]. rewrite Hout.
    apply merge_artifacts_keeps, add_artifact_lookup.
  - apply not_elem_of_cons in Hnotin as [Hne Hnotin].
    cbn [app merge_artifacts].
    destruct (artifacts project !! n) eqn:En.
    + by apply IH.
    + apply IH; [|done]. cbn. by rewrite lookup_insert_ne.
Qed.

Lemma process_step_keeps step project now name a :
  artifacts project !! name = Some a ->
  artifacts (process_step step project now).1 !! name = Some a.
Proof.
  intros Hin. unfold process_step.
  set (p0 := set_current_agent _ project).
  assert (H0 : artifacts p0 !! name = Some a) by done.
  destruct (_ && _).
  - destruct (add_new_messages _ p0 now) as [p1 t1] eqn:E1.
    assert (H1 : artifacts p1 !! name = Some a).
    { apply (f_equal fst) in E1. cbn in E1. subst p1.
      by rewrite add_new_messages_artifacts. }
    destruct (merge_artifacts _ p1 t1) as [p2 t2] eqn:E2.
    assert (H2 : artifacts p2 !! name = Some a).
    { apply (f_equal fst) in E2. cbn in E2. subst p2.
      by apply merge_artifacts_keeps. }
    destruct (negb _); [|done]. by rewrite update_status_artifacts.
  - destruct (merge_artifacts _ p0 now) as [p2 t2] eqn:E2.
    assert (H2 : artifacts p2 !! name = Some a).
    { apply (f_equal fst) in E2. cbn in E2. subst p2.
      by apply merge_artifacts_keeps. }
    destruct (negb _); [|done]. by rewrite update_status_artifacts.
Qed.

Lemma for_steps_keeps g project now name a :
  artifacts project !! name = Some a ->
  artifacts (for_steps g project now).1.1 !! name = Some a.
Proof.
  revert project now.
  induction g as [|[step|e|e] g IH]; intros project now Hin; [done| |done|done].
  cbn [for_steps].
  destruct (process_step step project now) as [p t] eqn:E.
  apply IH. apply (f_equal fst) in E. cbn in E. subst p.
  by apply process_step_keeps.
Qed.

End Artifacts.

(** C2, as the specification states it, fails: [ProjectState.add_artifact]
    stores unconditionally, so of two calls under one name the second one's
    content is what the project holds. *)
Lemma add_artifact_second_call_overwrites :
  let p1 := (add_artifact Sample.fresh_project "brd" "first" "document"
               "business_analyst" 2).1 in
  let p2 := (add_artifact p1 "brd" "second" "document" "qa_engineer" 3).1 in
  a_content <$> artifacts p1 !! "brd" = Some "first" ∧
  a_content <$> artifacts p2 !! "brd" = Some "second" ∧
  a_content <$> artifacts p2 !! "brd" ≠ Some "first".
Proof. by vm_compute. Qed.

(** C2, amended: [add_artifact] itself replaces whatever is stored under the
    name; first writer wins is the rule of the engine's merge.  When the
    engine merges the artifacts of a step into a project that has no artifact
    [name], the first entry for [name] is stored with its content, type and
    creator (missing keys read as the empty string); every later merge, and
    every later step of the run, leaves the artifact stored under [name] as
    it is, without raising. *)
Theorem merge_artifacts_first_writer_wins
    (project : ProjectState) (now : Time) (name : string) (art : StepArtifact)
    (items1 items2 : list (string * StepArtifact)) :
  artifacts project !! name = None ->
  name ∉ items1.*1 ->
  let first := merge_artifacts (items1 ++ (name, art) :: items2) project now in
  (a_content <$> artifacts first.1 !! name = Some (default "" (sa_content art)) ∧
   a_type <$> artifacts first.1 !! name = Some (default "" (sa_type art)) ∧
   a_created_by <$> artifacts first.1 !! name
     = Some (default "" (sa_created_by art))) ∧
  (∀ later t,
     artifacts (merge_artifacts later first.1 t).1 !! name
     = artifacts first.1 !! name) ∧
  (∀ g t,
     artifacts (for_steps g first.1 t).1.1 !! name
     = artifacts first.1 !! name) ∧
  (∀ content ty agent t,
     a_content <$>
       artifacts (add_artifact first.1 name content ty agent t).1 !! name
     = Some content).
Proof.
  intros Hout Hnotin first.
  pose proof (merge_artifacts_first items1 name art items2 project now
                Hout Hnotin) as Hfirst.
  fold first in Hfirst.
  repeat split.
  - by rewrite Hfirst.
  - by rewrite Hfirst.
  - by rewrite Hfirst.
  - intros later t. rewrite Hfirst. by apply merge_artifacts_keeps.
  - intros g t. rewrite Hfirst. by apply for_steps_keeps.
  - intros content ty agent t. by rewrite add_artifact_lookup.
Qed.

Lemma merge_artifacts_first_writer_wins_witness :
  let first :=
    merge_artifacts
      ([("erd", Sample.text_artifact "diagram")] ++
       ("brd", Sample.text_artifact "first") ::
       [("brd", Sample.text_artifact "second")])
      Sample.fresh_project 2 in
  a_content <$> artifacts first.1 !! "brd" = Some "first" ∧
  artifacts
    (merge_artifacts [("brd", Sample.text_artifact "third")] first.1 9).1
    !! "brd"
  = artifacts first.1 !! "brd".
Proof.
  pose proof (merge_artifacts_first_writer_wins Sample.fresh_project 2 "brd"
                (Sample.text_artifact "first")
                [("erd", Sample.text_artifact "diagram")]
                [("brd", Sample.text_artifact "second")]) as H.
  destruct H as [[Hc _] [Hlater _]].
  - reflexivity.
  - cbn. rewrite list_elem_of_singleton. discriminate.
  - split; [exact Hc | exact (Hlater _ 9)].
Defined.

(** ** Reading the message log by cursor *)

Section Messages.

Lemma slice_from_nonneg {A : Type} (l : list A) (c : Z) :
  (0 ≤ c)%Z -> slice_from l c = drop (Z.to_nat c) l.
Proof.
  intros Hc. unfold slice_from.
  destruct (Z.ltb_spec c 0); [lia|done].
Qed.

Lemma project_messages_found w pid project c :
  active_projects w !! pid = Some project ->
  (0 ≤ c)%Z ->
  project_messages pid (Some c) w
  = Ok {| messages_project_id := pid;
          new_messages := drop (Z.to_nat c) (messages project);
          last_id :=
            (c + Z.of_nat (length (drop (Z.to_nat c) (messages project))))%Z |}.
Proof.
  intros Hin Hc. unfold project_messages. rewrite Hin. cbn [default].
  by rewrite slice_from_nonneg.
Qed.

Lemma commit_lookup pid project now w :
  active_projects (commit pid project now w) !! pid = Some project.
Proof. cbn. apply lookup_insert_eq. Qed.

Lemma commit_lookup_ne pid other project now w :
  pid ≠ other ->
  active_projects (commit pid project now w) !! other
  = active_projects w !! other.
Proof. intros Hne. cbn. by rewrite lookup_insert_ne. Qed.

End Messages.

(** C3: for a project [project] registered under [pid] and a cursor [c]
    (a count of messages already read, so [0 ≤ c]), [project_messages]
    returns the messages at the positions from [c] up to the end of the log,
    in order (message [i] of the answer is message [c + i] of the log), and
    the new cursor [c] plus the number of messages returned.  For
    [c ≤ message_count] that is [message_count - c] messages and the new
    cursor [message_count]; for [c ≥ message_count] the answer is empty and
    the cursor stays.  The read is a function of the world alone, so calls at
    one cursor agree, and once the log has grown by [extra], reading at the
    new cursor returns exactly [extra]: no message twice, none skipped. *)
Theorem project_messages_cursor
    (w : World) (pid : string) (project : ProjectState) (c : Z) :
  active_projects w !! pid = Some project ->
  (0 ≤ c)%Z ->
  ∃ body,
    project_messages pid (Some c) w = Ok body ∧
    new_messages body = drop (Z.to_nat c) (messages project) ∧
    (∀ i : nat, new_messages body !! i = messages project !! (Z.to_nat c + i)) ∧
    last_id body = (c + Z.of_nat (length (new_messages body)))%Z ∧
    ((c ≤ Z.of_nat (length (messages project)))%Z ->
       length (new_messages body) = length (messages project) - Z.to_nat c ∧
       last_id body = Z.of_nat (length (messages project))) ∧
    ((Z.of_nat (length (messages project)) ≤ c)%Z ->
       new_messages body = [] ∧ last_id body = c) ∧
    (∀ extra now,
       (c ≤ Z.of_nat (length (messages project)))%Z ->
       let w' :=
         commit pid (set_messages (messages project ++ extra) project) now w in
       (∃ body',
          project_messages pid (Some (last_id body)) w' = Ok body' ∧
          new_messages body' = extra) ∧
       (∃ body'',
          project_messages pid (Some c) w' = Ok body'' ∧
          new_messages body'' = new_messages body ++ extra)).
Proof.
  intros Hin Hc. eexists. split; [by apply project_messages_found|].
  cbn [new_messages last_id].
  split; [done|]. split; [intros i; apply lookup_drop|]. split; [done|].
  split; [|split].
  - intros Hle. rewrite length_drop. split; [done|]. lia.
  - intros Hge. rewrite drop_ge by lia. split; [done|]. cbn. lia.
  - intros extra now Hle. split.
    + eexists. split.
      * apply project_messages_found; [apply commit_lookup|lia].
      * cbn [new_messages messages set_messages].
        rewrite length_drop.
        replace (Z.to_nat _) with (length (messages project)) by lia.
        apply drop_app_length.
    + eexists. split.
      * apply project_messages_found; [apply commit_lookup|done].
      * cbn [new_messages messages set_messages].
        rewrite drop_app_le by lia. done.
Qed.

Lemma project_messages_cursor_witness :
  ∃ body,
    project_messages "p1" (Some 1%Z) Sample.ended = Ok body ∧
    length (new_messages body) = 1 ∧ last_id body = 2%Z.
Proof.
  destruct (project_messages_cursor Sample.ended "p1"
              (set_status "error"
                 (set_messages
                    (messages Sample.fresh_project ++
                       [{| sender := Some "System";
                           content :=
                             "Error: 'WorkflowState' object is not iterable";
                           timestamp := 2 |}])
                    Sample.fresh_project))
              1%Z) as (body & Hbody & Hnew & _ & Hlast & _).
  - reflexivity.
  - lia.
  - exists body. rewrite Hlast, Hnew. by repeat split.
Defined.

(** ** The background task *)

Section EngineFacts.

Implicit Types (project p : ProjectState) (now t : Time).

Lemma update_status_status p s t : status (update_status p s t).1 = s.
Proof. unfold update_status. by destruct (String.eqb s "completed"). Qed.

Lemma add_new_messages_status msgs p t :
  status (add_new_messages msgs p t).1 = status p.
Proof.
  revert p t. induction msgs as [|m msgs IH]; intros p t; [done|].
  cbn [add_new_messages add_message]. by rewrite IH.
Qed.

Lemma merge_artifacts_status items p t :
  status (merge_artifacts items p t).1 = status p.
Proof.
  revert p t. induction items as [|[n a] items IH]; intros p t; [done|].
  cbn [merge_artifacts]. destruct (artifacts p !! n); cbn; by rewrite IH.
Qed.

(** What a pass through the loop publishes: the progress status when the
    step reports completed steps, and nothing otherwise. *)
Lemma process_step_status step p t :
  status (process_step step p t).1 =
  match default [] (st_completed_steps (state step)) with
  | [] => status p
  | l => progress_status l
  end.
Proof.
  unfold process_step.
  set (p0 := set_current_agent _ p).
  set (r1 := if _ && _ then _ else _).
  assert (H1 : status r1.1 = status p).
  { subst r1. destruct (_ && _); [|done]. by rewrite add_new_messages_status. }
  destruct r1 as [p1 t1]. cbn in H1.
  pose proof (merge_artifacts_status
                (default [] (st_artifacts (state step))) p1 t1) as H2.
  destruct (merge_artifacts _ p1 t1) as [p2 t2]. cbn in H2.
  destruct (default [] (st_completed_steps (state step))) as [|c l].
  - cbn. congruence.
  - cbn [bool_decide negb]. rewrite bool_decide_eq_false_2 by done.
    cbn [negb]. by rewrite update_status_status.
Qed.

Lemma progress_status_not_terminal l : terminal (progress_status l) = false.
Proof. reflexivity. Qed.

Lemma process_step_not_terminal step p t :
  terminal (status p) = false ->
  terminal (status (process_step step p t).1) = false.
Proof.
  intros H. rewrite process_step_status.
  by destruct (default [] (st_completed_steps (state step))).
Qed.

Lemma loop_states_not_terminal g p t :
  terminal (status p) = false ->
  Forall (λ r, terminal (status r.1) = false) (loop_states g p t).
Proof.
  revert p t. induction g as [|[step|e|e] g IH]; intros p t H; cbn; auto.
  pose proof (process_step_not_terminal step p t H).
  constructor; auto.
Qed.

Lemma for_steps_app_raise pre e post p t :
  for_steps ((Yield <$> pre) ++ Raise e :: post) p t
  = ((for_steps (Yield <$> pre) p t).1, Some (Ordinary e)).
Proof.
  revert p t. induction pre as [|step pre IH]; intros p t; [done|].
  cbn [fmap list_fmap app for_steps].
  destruct (process_step step p t) as [p' t']. apply IH.
Qed.

Lemma for_steps_app_exit pre e post p t :
  for_steps ((Yield <$> pre) ++ Exit e :: post) p t
  = ((for_steps (Yield <$> pre) p t).1, Some (Exiting e)).
Proof.
  revert p t. induction pre as [|step pre IH]; intros p t; [done|].
  cbn [fmap list_fmap app for_steps].
  destruct (process_step step p t) as [p' t']. apply IH.
Qed.

Lemma loop_states_yield_app pre g p t :
  loop_states ((Yield <$> pre) ++ g) p t
  = loop_states (Yield <$> pre) p t
    ++ loop_states g (for_steps (Yield <$> pre) p t).1.1
         (for_steps (Yield <$> pre) p t).1.2.
Proof.
  revert p t. induction pre as [|step pre IH]; intros p t; [done|].
  cbn [fmap list_fmap app loop_states for_steps].
  destruct (process_step step p t) as [p' t']. cbn [fst snd].
  by rewrite IH.
Qed.

Lemma for_steps_yield pre p t : (for_steps (Yield <$> pre) p t).2 = None.
Proof.
  revert p t. induction pre as [|step pre IH]; intros p t; [done|].
  cbn [fmap list_fmap for_steps].
  destruct (process_step step p t) as [p' t']. apply IH.
Qed.

Lemma loop_states_yield_length pre p t :
  length (loop_states (Yield <$> pre) p t) = length pre.
Proof.
  revert p t. induction pre as [|step pre IH]; intros p t; [done|].
  cbn. by rewrite IH.
Qed.

Lemma except_suite_eq e p t :
  except_suite e p t
  = (set_status "error"
       (set_messages
          (messages p ++
             [{| sender := Some "System";
                 content := "Error: " +:+ exn_str e;
                 timestamp := t |}]) p), S t).
Proof. reflexivity. Qed.

(** A terminal status is what the task publishes last, and only then; the
    one run that publishes none is ended by an exception that is not an
    [Exception]. *)
Lemma engine_states_terminal_last rw pid project now :
  ∃ before final,
    engine_states rw pid project now = before ++ [final] ∧
    (terminal (status final.1) = true ∨
     ∃ e, (try_suite rw pid project now).2 = Some (Exiting e)) ∧
    Forall (λ r, terminal (status r.1) = false) before.
Proof.
  unfold engine_states, try_suite.
  destruct (update_status project "running" now) as [p0 t0] eqn:E0.
  assert (Hr : terminal (status p0) = false).
  { apply (f_equal fst) in E0. cbn in E0. by subst p0. }
  cbn [fst snd].
  destruct (rw _ _) as [g|cls].
  - pose proof (loop_states_not_terminal g p0 t0 Hr) as Hloop.
    destruct (for_steps g p0 t0) as [[p t] [[e|e]|]].
    + exists ((p0, t0) :: loop_states g p0 t0). eexists.
      split; [done|]. split; [by left|]. by constructor.
    + rewrite app_nil_r.
      destruct (loop_states g p0 t0) as [|x l _] using rev_ind.
      * exists [], (p0, t0). split; [done|]. split; [right; by exists e|done].
      * apply Forall_app in Hloop as [Hl _].
        exists ((p0, t0) :: l), x.
        split; [done|]. split; [right; by exists e|]. by constructor.
    + exists ((p0, t0) :: loop_states g p0 t0). eexists.
      split; [done|]. split; [left; by rewrite update_status_status|].
      by constructor.
  - exists [(p0, t0)]. eexists. split; [done|]. split; [by left|].
    by constructor.
Qed.

Lemma for_steps_last_state g p t :
  (for_steps g p t).1 = default (p, t) (last (loop_states g p t)).
Proof.
  revert p t. induction g as [|[step|e|e] g IH]; intros p t; [done| |done|done].
  cbn [for_steps loop_states].
  destruct (process_step step p t) as [p' t'] eqn:E. cbn [fst snd].
  rewrite IH, last_cons. by destruct (last (loop_states g p' t')).
Qed.

(** The last of the published states is the one the call leaves behind,
    whether it returns or an exception leaves it. *)
Lemma run_project_workflow_last rw pid w project :
  active_projects w !! pid = Some project ->
  ∃ final,
    last (engine_states rw pid project (clock w)) = Some final ∧
    (run_project_workflow rw pid w
     = Returns (commit pid final.1 final.2 w) ∨
     ∃ e, (try_suite rw pid project (clock w)).2 = Some (Exiting e) ∧
          run_project_workflow rw pid w
          = Escapes e (commit pid final.1 final.2 w)).
Proof.
  intros Hin. unfold run_project_workflow, try_suite, engine_states.
  rewrite Hin.
  destruct (update_status project "running" (clock w)) as [p0 t0] eqn:E0.
  cbn [fst snd].
  destruct (rw _ _) as [g|cls].
  - pose proof (for_steps_last_state g p0 t0) as Hlast.
    destruct (for_steps g p0 t0) as [[p t] [[e|e]|]] eqn:Ef.
    + eexists. split; [by rewrite last_cons, last_snoc|].
      left. by destruct (except_suite e p t).
    + exists (p, t). rewrite app_nil_r, last_cons. cbn in Hlast.
      split; [by destruct (last (loop_states g p0 t0)); rewrite Hlast|].
      right. by exists e.
    + eexists. rewrite last_cons, last_snoc. split; [done|].
      left. by destruct (update_status _ "completed" t).
  - eexists. split; [done|]. left. by destruct (except_suite _ p0 t0).
Qed.

End EngineFacts.

(** With a [run_workflow] that is a generator whose stages all yield, the
    loop takes every step and the task ends with the project completed. *)
Lemma run_project_workflow_completes_on_generator
    (rw : string -> string -> Returned) (w : World) (pid : string)
    (project : ProjectState) (steps : list Step) :
  active_projects w !! pid = Some project ->
  rw pid (requirements project) = Generator (Yield <$> steps) ->
  ∃ final t,
    run_project_workflow rw pid w = Returns (commit pid final (S t) w) ∧
    status final = "completed" ∧
    completed_at final = Some t ∧
    result final = Some "Project completed successfully." ∧
    length (loop_states (Yield <$> steps) (set_status "running" project) (clock w))
    = length steps.
Proof.
  intros Hin Hrw. unfold run_project_workflow, try_suite. rewrite Hin.
  cbn [update_status String.eqb Ascii.eqb Bool.eqb set_status project_id
       requirements].
  rewrite Hrw.
  pose proof (for_steps_yield steps (set_status "running" project) (clock w))
    as Hnone.
  destruct (for_steps _ _ _) as [[p t] r]. cbn in Hnone. subst r.
  eexists _, t. split; [reflexivity|].
  repeat split. apply loop_states_yield_length.
Qed.

(** [run_workflow] of [workflow/graph.py] itself goes through its seven
    phases and records no error when every [print] succeeds. *)
Lemma graph_run_workflow_runs_all_phases (uuid4 workflow requirements : string) :
  let state := Graph.run_workflow Sample.print_ok uuid4 workflow requirements in
  Graph.completed_phases state = Graph.steps ∧
  Graph.current_phase state = "project_completion" ∧
  Graph.errors state = [].
Proof. by repeat split. Qed.

(** When a phase fails, [run_workflow] keeps the failure to itself: it stops
    at that phase, appends the description to [errors] and still returns the
    state. *)
Lemma graph_run_workflow_records_failure
    (print : string -> option Exn) (e : Exn)
    (uuid4 workflow requirements : string) :
  print "Executing phase: business_analysis" = Some e ->
  let state := Graph.run_workflow print uuid4 workflow requirements in
  Graph.completed_phases state = ["business_analysis"] ∧
  Graph.current_phase state = "business_analysis" ∧
  Graph.errors state = [exn_str e].
Proof.
  intros Hfail. unfold Graph.run_workflow, Graph.steps.
  cbn [Graph.run_phases].
  change ("Executing phase: " +:+ "business_analysis")
    with "Executing phase: business_analysis".
  by rewrite Hfail.
Qed.

(** C1 does not hold of the code as it stands.  [run_workflow] of
    [workflow/graph.py] runs its seven phases and returns a [WorkflowState],
    which is not iterable; so for every registered project, whatever the
    phases print and even when none of them fails, the [for] statement of
    [run_project_workflow] raises [TypeError] before any step is taken: the
    task records one system message, leaves [completed_at] as it was, and
    ends with the status ["error"], never ["completed"]. *)
Theorem run_project_workflow_graph_ends_in_error
    (print : string -> option Exn) (uuid4 : string) (w : World) (pid : string)
    (project : ProjectState) :
  active_projects w !! pid = Some project ->
  let failed :=
    set_status "error"
      (set_messages
         (messages project ++
            [{| sender := Some "System";
                content := "Error: 'WorkflowState' object is not iterable";
                timestamp := clock w |}])
         project) in
  run_project_workflow (graph_run_workflow print uuid4) pid w
  = Returns (commit pid failed (S (clock w)) w) ∧
  status failed = "error" ∧
  status failed ≠ "completed" ∧
  completed_at failed = completed_at project ∧
  result failed = result project ∧
  artifacts failed = artifacts project ∧
  engine_states (graph_run_workflow print uuid4) pid project (clock w)
  = [(set_status "running" project, clock w); (failed, S (clock w))].
Proof.
  intros Hin failed. unfold run_project_workflow. rewrite Hin.
  repeat split. discriminate.
Qed.

Lemma run_project_workflow_graph_ends_in_error_witness :
  ∃ w final,
    run_project_workflow (graph_run_workflow Sample.print_ok "g1") "p1"
      Sample.started = Returns w ∧
    active_projects w !! "p1" = Some final ∧
    status final = "error" ∧ completed_at final = None ∧
    length (messages final) = 2.
Proof.
  destruct (run_project_workflow_graph_ends_in_error Sample.print_ok "g1"
              Sample.started "p1" Sample.fresh_project) as (Hrun & _).
  - reflexivity.
  - eexists _, _. split; [exact Hrun|]. split; [apply commit_lookup|].
    by repeat split.
Defined.

(** A phase that fails after the phases [pre] have run ends the loop of
    [run_workflow] there. *)
Lemma run_phases_fails_at (print : string -> option Exn)
    (pre post : list string) (step : string) (e : Exn)
    (st : Graph.WorkflowState) :
  Forall (λ s, print ("Executing phase: " +:+ s) = None) pre ->
  print ("Executing phase: " +:+ step) = Some e ->
  let r := Graph.run_phases print (pre ++ step :: post) st in
  r.2 = Some e ∧
  Graph.completed_phases r.1 = Graph.completed_phases st ++ pre ++ [step] ∧
  Graph.current_phase r.1 = step ∧
  Graph.errors r.1 = Graph.errors st.
Proof.
  intros Hpre Hfail. revert st.
  induction Hpre as [|s pre Hs _ IH]; intros st.
  - cbn [app Graph.run_phases]. rewrite Hfail. by repeat split.
  - cbn [app Graph.run_phases]. rewrite Hs.
    destruct (IH (Graph.enter_phase s st)) as (H1 & H2 & H3 & H4).
    split; [done|]. split; [|by split].
    rewrite H2. cbn [Graph.completed_phases Graph.enter_phase].
    by rewrite <- app_assoc.
Qed.

(** C5 does not hold of the code as it stands.  The stages are the phases
    of [run_workflow] in [workflow/graph.py], and the one thing that can fail
    in a phase is its [print].  When the phases [pre] succeed and the phase
    [step] fails with [e], [run_workflow] stops there, runs no later phase,
    appends [str(e)] to [state.errors] and returns the state as if nothing had
    happened.  The engine never sees [e]: its [for] statement raises
    [TypeError] on the state it is handed, and that is the failure the task
    reports.  The call returns (nothing escapes), the status becomes
    ["error"], and exactly one message is appended, from ["System"]; but its
    content is "Error: 'WorkflowState' object is not iterable" whatever [e]
    is, not the description of the failure of the stage. *)
Theorem failing_phase_is_reported_as_type_error
    (print : string -> option Exn) (uuid4 : string) (w : World) (pid : string)
    (project : ProjectState) (pre post : list string) (step : string)
    (e : Exn) :
  active_projects w !! pid = Some project ->
  Graph.steps = pre ++ step :: post ->
  Forall (λ s, print ("Executing phase: " +:+ s) = None) pre ->
  print ("Executing phase: " +:+ step) = Some e ->
  let state := Graph.run_workflow print uuid4 pid (requirements project) in
  let report :=
    {| sender := Some "System";
       content := "Error: 'WorkflowState' object is not iterable";
       timestamp := clock w |} in
  let failed :=
    set_status "error" (set_messages (messages project ++ [report]) project) in
  (Graph.errors state = [exn_str e] ∧
   Graph.completed_phases state = pre ++ [step] ∧
   Graph.current_phase state = step) ∧
  run_project_workflow (graph_run_workflow print uuid4) pid w
  = Returns (commit pid failed (S (clock w)) w) ∧
  status failed = "error" ∧
  terminal (status failed) = true ∧
  messages failed = messages project ++ [report] ∧
  engine_writes (graph_run_workflow print uuid4) pid project (clock w)
  = [ set_status "running" project;
      set_messages (messages project ++ [report])
        (set_status "running" project);
      failed ].
Proof.
  intros Hin Hsteps Hpre Hfail state report failed.
  split; [|split; [|by repeat split]].
  - subst state. unfold Graph.run_workflow. rewrite Hsteps.
    destruct (run_phases_fails_at print pre post step e
                (Graph.new_state uuid4 (requirements project)) Hpre Hfail)
      as (H1 & H2 & H3 & H4).
    destruct (Graph.run_phases _ _ _) as [st r]. cbn [fst snd] in *.
    subst r. cbn [Graph.errors Graph.completed_phases Graph.current_phase
                  Graph.record_error].
    by rewrite H2, H3, H4.
  - unfold run_project_workflow. by rewrite Hin.
Qed.

Lemma failing_phase_is_reported_as_type_error_witness :
  Graph.errors (Graph.run_workflow Sample.print_failing "g1" "p1"
                  "Build a task tracker")
  = ["connection timeout"] ∧
  ∃ final,
    run_project_workflow (graph_run_workflow Sample.print_failing "g1") "p1"
      Sample.started
    = Returns (commit "p1" final 3 Sample.started) ∧
    content <$> messages final
    = [ initial_message; "Error: 'WorkflowState' object is not iterable" ] ∧
    Forall (λ m, Main.contains "connection timeout" (content m) = false)
      (messages final).
Proof.
  destruct (failing_phase_is_reported_as_type_error Sample.print_failing "g1"
              Sample.started "p1" Sample.fresh_project
              ["business_analysis"]
              [ "database_implementation"; "apex_development";
                "frontend_enhancement"; "testing"; "project_completion" ]
              "database_design" Sample.timeout)
    as ((Herr & _) & Hrun & _ & _ & Hmsgs & _).
  - reflexivity.
  - reflexivity.
  - repeat constructor.
  - reflexivity.
  - split; [exact Herr|]. eexists. split; [exact Hrun|].
    rewrite Hmsgs. split; [reflexivity|]. by repeat constructor.
Defined.

(** A negative [last_id] is not a cursor: Python counts it from the end of
    the log. *)
Lemma project_messages_negative_last_id :
  ∃ body,
    project_messages "p1" (Some (-1)%Z) Sample.ended = Ok body ∧
    length (new_messages body) = 1 ∧ last_id body = 0%Z.
Proof. eexists. by vm_compute. Qed.

(** ** Posting a message *)

Lemma truthy_Some s : s ≠ "" -> truthy (Some s) = true.
Proof. intros H. cbn. by apply String.eqb_neq in H as ->. Qed.

(** C4, as the specification states it, fails: the project ["p1"] has
    reached the terminal status ["error"] with two messages in its log, and
    [send_message] still appends a third. *)
Lemma send_message_appends_after_terminal :
  ∃ p p',
    active_projects Sample.ended !! "p1" = Some p ∧
    terminal (status p) = true ∧
    length (messages p) = 2 ∧
    active_projects
      (send_message (Some "p1") (Some "Any news?") Sample.ended).2 !! "p1"
    = Some p' ∧
    length (messages p') = 3 ∧
    status p' = status p.
Proof. eexists _, _. by vm_compute. Qed.

(** C4, amended: a terminal status (["completed"] or ["error"]) is the last
    thing the background task publishes, so once it is reached the task runs
    no further stage and adds no further message or artifact; the task ends
    without one only when an exception that is not an [Exception] leaves it.
    Posting a
    message is not bound by it: for a project in any status, terminal or
    not, [send_message] appends the posted text to the log as a message from
    ["User"] and changes nothing else, neither of that project (status,
    current agent, artifacts, completion time, result) nor of any other. *)
Theorem send_message_appends_in_any_status
    (w : World) (pid text : string) (project : ProjectState) :
  active_projects w !! pid = Some project ->
  pid ≠ "" ->
  text ≠ "" ->
  let posted :=
    set_messages
      (messages project ++
         [{| sender := Some "User"; content := text; timestamp := clock w |}])
      project in
  send_message (Some pid) (Some text) w
  = (Ok {| send_status := "success"; send_message_text := "Message received" |},
     commit pid posted (S (clock w)) w) ∧
  (status posted = status project ∧
   current_agent posted = current_agent project ∧
   artifacts posted = artifacts project ∧
   completed_at posted = completed_at project ∧
   result posted = result project) ∧
  (∀ other,
     other ≠ pid ->
     active_projects (commit pid posted (S (clock w)) w) !! other
     = active_projects w !! other) ∧
  (∀ rw id now,
     ∃ before final,
       engine_states rw id project now = before ++ [final] ∧
       (terminal (status final.1) = true ∨
        ∃ e, (try_suite rw id project now).2 = Some (Exiting e)) ∧
       Forall (λ r, terminal (status r.1) = false) before).
Proof.
  intros Hin Hpid Htext posted. split; [|split; [done|split]].
  - unfold send_message.
    rewrite (truthy_Some pid Hpid), (truthy_Some text Htext), Hin.
    reflexivity.
  - intros other Hne. by apply commit_lookup_ne.
  - intros rw id now. apply engine_states_terminal_last.
Qed.

Lemma send_message_appends_in_any_status_witness :
  ∃ w,
    send_message (Some "p1") (Some "Any news?") Sample.started
    = (Ok {| send_status := "success";
             send_message_text := "Message received" |}, w) ∧
    (length ∘ messages) <$> active_projects w !! "p1" = Some 2.
Proof.
  destruct (send_message_appends_in_any_status Sample.started "p1" "Any news?"
              Sample.fresh_project) as (Hsend & _).
  - reflexivity.
  - discriminate.
  - discriminate.
  - eexists. split; [exact Hsend|]. by rewrite commit_lookup.
Defined.

(** ** Progress *)

Section Progress.

(** The binary64 computation agrees with integer division on every count
    up to 1000, checked by evaluation. *)
Lemma progress_checked :
  forallb
    (λ k, Z.eqb (int_of_float (progress (replicate k "")))
                (100 * Z.of_nat k / 7))
    (seq 0 1001) = true.
Proof. vm_compute. reflexivity. Qed.

Lemma progress_floor (l : list string) :
  (length l ≤ 1000)%nat ->
  int_of_float (progress l) = (100 * Z.of_nat (length l) / 7)%Z.
Proof.
  intros Hle.
  pose proof (proj1 (forallb_forall _ _) progress_checked (length l)) as H.
  cbv beta in H. unfold progress in *. rewrite length_replicate in H.
  apply Z.eqb_eq, H, in_seq. lia.
Qed.

Lemma published_floor step :
  (completed_count step ≤ 1000)%nat ->
  published step =
  if decide (completed_count step = 0) then None
  else Some (100 * Z.of_nat (completed_count step) / 7)%Z.
Proof.
  unfold published, completed_count. intros Hle.
  destruct (default [] _) as [|c l] eqn:E; [done|].
  rewrite decide_False by done. by rewrite progress_floor.
Qed.

Lemma process_step_published step p t :
  status (process_step step p t).1 =
  match published step with
  | Some n => "In progress - " +:+ str_int n +:+ "% complete"
  | None => status p
  end.
Proof.
  rewrite process_step_status. unfold published.
  by destruct (default [] _).
Qed.

End Progress.

(** The body of the loop: a step that reports [k] completed steps,
    [1 ≤ k], makes a pass through the loop publish the status
    ["In progress - N% complete"] with [N] the integer part of
    [(k / 7) * 100], seven being the length of [workflow_steps]; the binary64
    computation gives [N = floor(100·k/7)] for every [k] up to 1000, so for
    [k = 1 .. 7] the values 14, 28, 42, 57, 71, 85 and 100. *)
Theorem progress_is_floor_of_percentage
    (step : Step) (project : ProjectState) (now : Time) :
  (1 ≤ completed_count step ≤ 1000)%nat ->
  length workflow_steps = 7 ∧
  published step = Some (100 * Z.of_nat (completed_count step) / 7)%Z ∧
  status (process_step step project now).1
  = "In progress - "
      +:+ str_int (100 * Z.of_nat (completed_count step) / 7) +:+ "% complete".
Proof.
  intros [Hpos Hle]. split; [done|].
  assert (Hpub : published step
                 = Some (100 * Z.of_nat (completed_count step) / 7)%Z).
  { rewrite published_floor by done. rewrite decide_False by lia. done. }
  split; [done|]. by rewrite process_step_published, Hpub.
Qed.

Lemma progress_is_floor_of_percentage_witness :
  published (Sample.reporting 3) = Some 42%Z ∧
  status (process_step (Sample.reporting 3) Sample.fresh_project 2).1
  = "In progress - 42% complete".
Proof.
  destruct (progress_is_floor_of_percentage (Sample.reporting 3)
              Sample.fresh_project 2) as (_ & Hpub & Hst).
  - cbn. lia.
  - split; [exact Hpub | exact Hst].
Defined.

Section Monotone.

Lemma published_lower_bound (k : nat) (steps : list Step) :
  Forall (λ s, (k ≤ completed_count s ≤ 1000)%nat) steps ->
  Forall (Z.le (100 * Z.of_nat k / 7)) (omap published steps).
Proof.
  induction 1 as [|s steps [Hk Hle] _ IH]; [constructor|].
  cbn [omap list_omap]. rewrite published_floor by done.
  case_decide; [done|]. constructor; [|done].
  apply Z.div_le_mono; lia.
Qed.

Lemma published_sorted (steps : list Step) :
  StronglySorted le (completed_count <$> steps) ->
  Forall (λ s, (completed_count s ≤ 1000)%nat) steps ->
  StronglySorted Z.le (omap published steps).
Proof.
  induction steps as [|s steps IH]; intros Hsorted Hbound; [constructor|].
  cbn [fmap list_fmap] in Hsorted.
  apply StronglySorted_inv in Hsorted as [Hsorted Hfirst].
  apply Forall_cons in Hbound as [Hs Hbound].
  cbn [omap list_omap]. rewrite published_floor by done.
  case_decide; [by apply IH|].
  constructor; [by apply IH|].
  apply published_lower_bound.
  rewrite Forall_fmap, Forall_forall in Hfirst. rewrite Forall_forall in Hbound.
  apply Forall_forall.
  intros s' Hin. split; [by apply Hfirst|by apply Hbound].
Qed.

Lemma published_100 (step : Step) :
  (completed_count step ≤ 1000)%nat ->
  published step = Some 100%Z <-> completed_count step = 7.
Proof.
  intros Hle. rewrite published_floor by done.
  case_decide as H0; [split; [done|lia]|].
  split.
  - intros [= H]. revert H. Z.div_mod_to_equations. lia.
  - intros ->. reflexivity.
Qed.

End Monotone.

(** Handed a generator of steps, the engine has no guard on the progress.
    A generator whose second step reports fewer completed steps than its
    first makes the published progress fall from 28 to 14; and one that
    reports all seven steps and then fails makes the task publish
    ["In progress - 100% complete"], a status that is not ["completed"],
    after which the project ends in ["error"] without ever being
    completed. *)
Lemma progress_can_fall_and_reach_100_early :
  (status ∘ fst) <$> engine_states Sample.shrinking "p1" Sample.fresh_project 2
  = [ "running"; "In progress - 28% complete"; "In progress - 14% complete";
      "completed" ] ∧
  (status ∘ fst)
    <$> engine_states Sample.failing_late "p1" Sample.fresh_project 2
  = [ "running"; "In progress - 100% complete"; "error" ].
Proof. by vm_compute. Qed.

(** Handed a generator of steps, each pass through the loop publishes the
    progress of the step it handles, [floor(100·k/7)] for the [k ≥ 1]
    completed steps the step reports ([k] up to 1000, the range checked by
    evaluation), and publishes nothing for a step that reports none.  So the
    published progress never decreases as long as the counts reported by
    successive steps do not decrease.  The value 100 is published exactly
    for a step that reports seven completed steps, and it is published inside
    the loop, as the status ["In progress - 100% complete"], which is not a
    terminal status. *)
Theorem progress_monotone_for_growing_counts (steps : list Step) :
  StronglySorted le (completed_count <$> steps) ->
  Forall (λ s, (completed_count s ≤ 1000)%nat) steps ->
  StronglySorted Z.le (omap published steps) ∧
  (∀ step p t,
     status (process_step step p t).1 =
     match published step with
     | Some n => "In progress - " +:+ str_int n +:+ "% complete"
     | None => status p
     end) ∧
  (∀ step,
     step ∈ steps ->
     published step =
     if decide (completed_count step = 0) then None
     else Some (100 * Z.of_nat (completed_count step) / 7)%Z) ∧
  (∀ step,
     step ∈ steps ->
     published step = Some 100%Z <-> completed_count step = 7) ∧
  (∀ step p t,
     completed_count step = 7 ->
     status (process_step step p t).1 = "In progress - 100% complete" ∧
     terminal (status (process_step step p t).1) = false).
Proof.
  intros Hsorted Hbound.
  split; [by apply published_sorted|].
  split; [apply process_step_published|].
  rewrite Forall_forall in Hbound.
  split; [intros step Hin; by apply published_floor, Hbound|].
  split; [intros step Hin; by apply published_100, Hbound|].
  intros step p t H7.
  assert (Hpub : published step = Some 100%Z) by (apply published_100; lia).
  rewrite process_step_published, Hpub. done.
Qed.

Lemma progress_monotone_for_growing_counts_witness :
  StronglySorted Z.le
    (omap published
       [Sample.reporting 0; Sample.reporting 1; Sample.reporting 1;
        Sample.reporting 4; Sample.reporting 7]).
Proof.
  refine (proj1 (progress_monotone_for_growing_counts
                   [Sample.reporting 0; Sample.reporting 1; Sample.reporting 1;
                    Sample.reporting 4; Sample.reporting 7] _ _)).
  - cbn. repeat (constructor; [|repeat constructor; lia]). constructor.
  - cbn. repeat constructor; lia.
Defined.

(** ** Progress with the workflow of [workflow/graph.py] *)

Section GraphProgress.

Variable print : string -> option Exn.

Lemma run_phases_succeeds (todo : list string) (st : Graph.WorkflowState) :
  Forall (λ s, print ("Executing phase: " +:+ s) = None) todo ->
  let r := Graph.run_phases print todo st in
  r.2 = None ∧
  Graph.completed_phases r.1 = Graph.completed_phases st ++ todo ∧
  Graph.errors r.1 = Graph.errors st.
Proof.
  intros Htodo. revert st.
  induction Htodo as [|s todo Hs _ IH]; intros st.
  - cbn. by rewrite app_nil_r.
  - cbn [Graph.run_phases]. rewrite Hs.
    destruct (IH (Graph.enter_phase s st)) as (H1 & H2 & H3).
    split; [done|]. split; [|done].
    rewrite H2. cbn [Graph.completed_phases Graph.enter_phase].
    by rewrite <- app_assoc.
Qed.

(** The stores of a run with the workflow of [workflow/graph.py]: the
    status ["running"], the error message, the status ["error"]. *)
Lemma graph_engine_writes uuid4 pid project now :
  engine_writes (graph_run_workflow print uuid4) pid project now
  = [ set_status "running" project;
      set_messages
        (messages project ++
           [{| sender := Some "System";
               content := "Error: 'WorkflowState' object is not iterable";
               timestamp := now |}])
        (set_status "running" project);
      set_status "error"
        (set_messages
           (messages project ++
              [{| sender := Some "System";
                  content := "Error: 'WorkflowState' object is not iterable";
                  timestamp := now |}])
           project) ].
Proof. reflexivity. Qed.

Lemma graph_engine_shows_no_progress uuid4 pid project now a n :
  a ∈ engine_writes (graph_run_workflow print uuid4) pid project now ->
  shows_progress a n = false.
Proof.
  rewrite graph_engine_writes. intros Hin.
  repeat (apply elem_of_cons in Hin as [->|Hin]; [reflexivity|]).
  by apply elem_of_nil in Hin.
Qed.

End GraphProgress.



(** C7 does not hold of the code as it stands.  When all seven phases of
    [run_workflow] succeed, the state it returns lists the seven as
    completed and no error; and the engine publishes no progress for any of
    them: no state of the project during the run shows
    ["In progress - N% complete"] for [N = floor(100·k/7)], whatever [k],
    and the run ends with the status ["error"].  The percentage is computed
    in the body of a loop that this workflow never lets the engine enter. *)
Theorem successful_phases_publish_no_progress
    (print : string -> option Exn) (uuid4 : string) (w : World) (pid : string)
    (project : ProjectState) :
  active_projects w !! pid = Some project ->
  Forall (λ step, print ("Executing phase: " +:+ step) = None) Graph.steps ->
  let state := Graph.run_workflow print uuid4 pid (requirements project) in
  let states :=
    engine_writes (graph_run_workflow print uuid4) pid project (clock w) in
  (Graph.completed_phases state = Graph.steps ∧
   length (Graph.completed_phases state) = 7 ∧
   Graph.errors state = []) ∧
  status <$> states = ["running"; "running"; "error"] ∧
  (∀ (k : nat) a,
     a ∈ states -> shows_progress a (100 * Z.of_nat k / 7) = false) ∧
  ∃ w' final,
    run_project_workflow (graph_run_workflow print uuid4) pid w = Returns w' ∧
    active_projects w' !! pid = Some final ∧
    last states = Some final ∧
    status final = "error".
Proof.
  intros Hin Hok state states. split; [|split; [done|split]].
  - subst state. unfold Graph.run_workflow.
    destruct (run_phases_succeeds print Graph.steps
                (Graph.new_state uuid4 (requirements project)) Hok)
      as (H1 & H2 & H3).
    destruct (Graph.run_phases _ _ _) as [st r]. cbn [fst snd] in *.
    subst r. rewrite H2, H3. by repeat split.
  - intros k a. apply graph_engine_shows_no_progress.
  - unfold run_project_workflow. rewrite Hin.
    eexists _, _. split; [reflexivity|]. split; [apply commit_lookup|].
    by split.
Qed.

Lemma successful_phases_publish_no_progress_witness :
  Graph.completed_phases
    (Graph.run_workflow Sample.print_ok "g1" "p1" "Build a task tracker")
  = Graph.steps ∧
  status
    <$> engine_writes (graph_run_workflow Sample.print_ok "g1") "p1"
          Sample.fresh_project 2
  = ["running"; "running"; "error"].
Proof.
  destruct (successful_phases_publish_no_progress Sample.print_ok "g1"
              Sample.started "p1" Sample.fresh_project)
    as ((Hphases & _) & Hstatuses & _).
  - reflexivity.
  - by repeat constructor.
  - split; [exact Hphases | exact Hstatuses].
Defined.

(** ** Starting a project *)

(** C8, as the specification states it, fails: there is no
    [DuplicateProjectError].  When the identifier drawn for the request is
    one the registry already holds, [start_project] succeeds and the project
    registered before is replaced by the new one. *)
Lemma start_project_replaces_registered_id :
  ∃ old body w' new,
    active_projects Sample.ended !! "p1" = Some old ∧
    start_project "p1" (Some "Build an invoicing tool") Sample.ended
    = (Ok body, w') ∧
    active_projects w' !! "p1" = Some new ∧
    requirements old = "Build a task tracker" ∧
    requirements new = "Build an invoicing tool" ∧
    status old = "error" ∧ status new = "initializing" ∧
    length (messages old) = 2 ∧ length (messages new) = 1.
Proof. eexists _, _, _, _. by vm_compute. Qed.

(** C8, amended: registration cannot fail.  For non-empty requirements
    [start_project] stores a new project (status ["initializing"], one
    system message, no artifact) under the identifier [uuid4] drawn for the
    request, whether or not the registry already holds that identifier,
    returns that identifier, and starts one background task for it; the
    project registered under any other identifier is left unchanged. *)
Theorem start_project_registers_unconditionally
    (uuid4 text : string) (w : World) :
  text ≠ "" ->
  let project :=
    {| project_id := uuid4; requirements := text; current_agent := None;
       status := "initializing"; started_at := clock w; completed_at := None;
       messages := [{| sender := Some "System"; content := initial_message;
                       timestamp := S (clock w) |}];
       artifacts := ∅; result := None |} in
  ∃ w',
    start_project uuid4 (Some text) w
    = (Ok {| start_project_id := uuid4; start_status := "initializing";
             start_message := initial_message |}, w') ∧
    active_projects w' = <[uuid4 := project]> (active_projects w) ∧
    active_projects w' !! uuid4 = Some project ∧
    (∀ other, other ≠ uuid4 ->
       active_projects w' !! other = active_projects w !! other) ∧
    threads w' = threads w ++ [uuid4] ∧
    session w' = Some uuid4.
Proof.
  intros Htext project. unfold start_project.
  rewrite (truthy_Some text Htext). cbn [negb].
  eexists. split; [reflexivity|]. cbn.
  split; [done|]. split; [apply lookup_insert_eq|].
  split; [|done]. intros other Hne. by rewrite lookup_insert_ne.
Qed.

Lemma start_project_registers_unconditionally_witness :
  ∃ w',
    (start_project "p2" (Some "Build an invoicing tool") Sample.ended).2 = w' ∧
    status <$> active_projects w' !! "p2" = Some "initializing" ∧
    status <$> active_projects w' !! "p1" = Some "error" ∧
    threads w' = ["p1"; "p2"].
Proof.
  destruct (start_project_registers_unconditionally "p2"
              "Build an invoicing tool" Sample.ended)
    as (w' & Hstart & _ & Hnew & Hother & Hthreads & _).
  - discriminate.
  - exists w'. rewrite Hstart. split; [done|].
    rewrite Hnew, (Hother "p1") by discriminate. rewrite Hthreads.
    by repeat split.
Defined.

(** C10: when the requirements of the request are absent or the empty
    string, [start_project] answers with the error 400 and leaves the whole
    process as it was: no project is created or registered, no background
    task is started, the session is not written.  A project identifier is
    returned only for requirements that are a non-empty text. *)
Theorem start_project_rejects_empty_requirements
    (uuid4 : string) (req : option string) (w : World) :
  truthy req = false ->
  (req = None ∨ req = Some "") ∧
  start_project uuid4 req w = (Error 400 "No requirements provided", w) ∧
  (∀ id req' body w',
     start_project id req' w = (Ok body, w') ->
     ∃ text, req' = Some text ∧ text ≠ "" ∧ start_project_id body = id).
Proof.
  intros Hfalse. split; [|split].
  - destruct req as [text|]; [right|by left].
    cbn in Hfalse. apply negb_false_iff, String.eqb_eq in Hfalse. by subst.
  - unfold start_project. destruct req as [text|]; [|done]. by rewrite Hfalse.
  - intros id req' body w' Hok. unfold start_project in Hok.
    destruct req' as [text|]; [|done].
    destruct (truthy (Some text)) eqn:Ht; [|done].
    cbn in Hok. exists text. split; [done|]. split.
    + cbn in Ht. by apply negb_true_iff, String.eqb_neq in Ht.
    + by injection Hok as <- _.
Qed.

Lemma start_project_rejects_empty_requirements_witness :
  start_project "p2" (Some "") Sample.ended
  = (Error 400 "No requirements provided", Sample.ended) ∧
  start_project "p2" None Sample.ended
  = (Error 400 "No requirements provided", Sample.ended).
Proof.
  split.
  - apply (start_project_rejects_empty_requirements "p2" (Some "")
             Sample.ended). reflexivity.
  - apply (start_project_rejects_empty_requirements "p2" None Sample.ended).
    reflexivity.
Defined.

(** ** Reading while the background task runs *)

(** C9, as the specification states it, fails: an endpoint works on the
    project object that the registry holds, the very object the background
    task updates, and reads its attributes one by one.  A [project_status]
    request that reads [status] before the task of ["p1"] runs and
    [messages] after it has ended answers with the status ["initializing"]
    and two messages, which the project had in none of the states it went
    through. *)
Lemma project_status_can_mix_states :
  let body := status_body "p1" Sample.torn_read in
  (status ∘ Sample.torn_read) 0 = "initializing" ∧
  (length ∘ messages ∘ Sample.torn_read) 5 = 2 ∧
  status_status body = "initializing" ∧
  message_count body = 2 ∧
  (λ s, (status s, length (messages s))) <$> Sample.history
  = [("initializing", 1); ("running", 1); ("error", 2)] ∧
  Forall (λ s, status_body "p1" (λ _, s) ≠ body) Sample.history.
Proof.
  vm_compute. repeat split. repeat constructor; discriminate.
Qed.

(** C9, amended: a registry read works on the live project object, not on
    a copy.  [project_status] reads the attributes one after the other, each
    from the object as it is at that moment.  When no update falls between
    the reads the answer is the consistent view of the current state, before
    the background task as well as after it, and [project_messages] and
    [project_artifacts] return the current log and artifact store.  When the
    background task of the project runs between two of the reads, after the
    status was read and before the messages are counted, the answer carries
    the status from before the task and the message count from after it: it
    is not the view a copy taken at the lookup would give, nor the view of
    any state the object has been in, before, during or after the run. *)
Theorem status_reads_follow_the_live_object
    (print : string -> option Exn) (uuid4 : string) (w : World) (pid : string)
    (project : ProjectState) (k : nat) :
  active_projects w !! pid = Some project ->
  status project ≠ "running" ->
  status project ≠ "error" ->
  (1 ≤ k ≤ 5)%nat ->
  let after :=
    set_status "error"
      (set_messages
         (messages project ++
            [{| sender := Some "System";
                content := "Error: 'WorkflowState' object is not iterable";
                timestamp := clock w |}])
         project) in
  let w' := commit pid after (S (clock w)) w in
  let body := status_body pid (preempted_at k project after) in
  run_project_workflow (graph_run_workflow print uuid4) pid w = Returns w' ∧
  (project_status pid w = Ok (status_body pid (λ _, project)) ∧
   project_status pid w' = Ok (status_body pid (λ _, after)) ∧
   ∀ at_read,
     (∀ i, at_read i = project) ->
     Ok (status_body pid at_read) = project_status pid w) ∧
  (∀ at_read,
     status_status (status_body pid at_read) = status (at_read 0) ∧
     status_current_agent (status_body pid at_read)
     = current_agent (at_read 1) ∧
     status_started_at (status_body pid at_read) = started_at (at_read 2) ∧
     message_count (status_body pid at_read)
     = length (messages (at_read 5)) ∧
     artifact_count (status_body pid at_read) = size (artifacts (at_read 6))) ∧
  (status_status body = status project ∧
   message_count body = S (length (messages project)) ∧
   body ≠ status_body pid (λ _, preempted_at k project after 0) ∧
   Forall (λ s, body ≠ status_body pid (λ _, s))
     (project
      :: engine_writes (graph_run_workflow print uuid4) pid project
           (clock w))) ∧
  project_messages pid None w
  = Ok {| messages_project_id := pid;
          new_messages := messages project;
          last_id := Z.of_nat (length (messages project)) |} ∧
  project_artifacts pid w
  = Ok {| artifacts_project_id := pid; artifacts_of := artifacts project |}.
Proof.
  intros Hin Hrunning Herror Hk after w' body.
  assert (Hstatus : status_status body = status project).
  { subst body. unfold status_body, preempted_at. cbn [status_status].
    by destruct (Nat.ltb_spec 0 k); [|lia]. }
  assert (Hcount : message_count body = S (length (messages project))).
  { subst body. unfold status_body, preempted_at. cbn [message_count].
    destruct (Nat.ltb_spec 5 k); [lia|].
    cbn. rewrite length_app. cbn. lia. }
  assert (Hdiffer : ∀ s,
            status s ≠ status project ∨
            length (messages s) ≠ S (length (messages project)) ->
            body ≠ status_body pid (λ _, s)).
  { intros s Hs Heq. destruct Hs as [Hs|Hs]; apply Hs.
    - apply (f_equal status_status) in Heq. rewrite Hstatus in Heq.
      by rewrite Heq.
    - apply (f_equal message_count) in Heq. rewrite Hcount in Heq.
      by rewrite Heq. }
  split; [|split; [|split; [done|split; [|split]]]].
  - unfold run_project_workflow. by rewrite Hin.
  - unfold project_status. subst w'. rewrite Hin, commit_lookup.
    split; [done|]. split; [done|].
    intros at_read Hsame. unfold status_body. by rewrite !Hsame.
  - split; [done|]. split; [done|]. split.
    + apply Hdiffer. right. unfold preempted_at.
      destruct (Nat.ltb_spec 0 k); [lia|lia].
    + rewrite graph_engine_writes.
      repeat (constructor; [apply Hdiffer|]); [| | | |constructor].
      * right. lia.
      * right. cbn. lia.
      * left. cbn. congruence.
      * left. cbn. congruence.
  - unfold project_messages. by rewrite Hin.
  - unfold project_artifacts. by rewrite Hin.
Qed.

Lemma status_reads_follow_the_live_object_witness :
  let after :=
    set_status "error"
      (set_messages
         (messages Sample.fresh_project ++
            [{| sender := Some "System";
                content := "Error: 'WorkflowState' object is not iterable";
                timestamp := 2 |}])
         Sample.fresh_project) in
  let body := status_body "p1" (preempted_at 5 Sample.fresh_project after) in
  status_status body = "initializing" ∧
  message_count body = 2 ∧
  body ≠ status_body "p1" (λ _, Sample.fresh_project) ∧
  body ≠ status_body "p1" (λ _, after).
Proof.
  intros after body.
  destruct (status_reads_follow_the_live_object Sample.print_ok "g1"
              Sample.started "p1" Sample.fresh_project 5)
    as (_ & _ & _ & (Hstatus & Hcount & _ & Hall) & _).
  - reflexivity.
  - discriminate.
  - discriminate.
  - lia.
  - split; [exact Hstatus|]. split; [exact Hcount|].
    rewrite graph_engine_writes in Hall.
    apply Forall_cons in Hall as [Hfirst Hall].
    apply Forall_cons in Hall as [_ Hall].
    apply Forall_cons in Hall as [_ Hall].
    apply Forall_cons in Hall as [Hlast _].
    split; [exact Hfirst | exact Hlast].
Defined.

(** ** What a pass through the loop does to the log *)

Section StepMessages.

Implicit Types (p : ProjectState) (t : Time).

Lemma merge_artifacts_messages items p t :
  messages (merge_artifacts items p t).1 = messages p.
Proof.
  revert p t. induction items as [|[n a] items IH]; intros p t; [done|].
  cbn [merge_artifacts]. destruct (artifacts p !! n); cbn; by rewrite IH.
Qed.

Lemma update_status_messages p s t :
  messages (update_status p s t).1 = messages p.
Proof. unfold update_status. by destruct (String.eqb s "completed"). Qed.

Lemma add_new_messages_current_agent msgs p t :
  current_agent (add_new_messages msgs p t).1 = current_agent p.
Proof.
  revert p t. induction msgs as [|m msgs IH]; intros p t; [done|].
  cbn [add_new_messages add_message]. by rewrite IH.
Qed.

Lemma add_new_messages_messages msgs p t :
  messages (add_new_messages msgs p t).1
  = messages p ++
    imap (λ i m,
            {| sender := if String.eqb (msg_type m) "human" then Some "User"
                         else current_agent p;
               content := msg_content m;
               timestamp := t + i |}) msgs.
Proof.
  revert p t. induction msgs as [|m msgs IH]; intros p t.
  - cbn. by rewrite app_nil_r.
  - cbn [add_new_messages add_message]. rewrite IH.
    cbn [messages set_messages current_agent].
    rewrite <- app_assoc. cbn [app]. rewrite imap_cons, Nat.add_0_r.
    do 2 f_equal. apply imap_ext. intros i x _. cbn. f_equal. lia.
Qed.

Lemma drop_not_longer {A} (l : list A) (n : nat) :
  negb (bool_decide (l = [])) && (n <? length l)%nat = false ->
  drop n l = [].
Proof.
  intros H. apply drop_ge. destruct l as [|x l]; [cbn; lia|].
  cbn [bool_decide negb andb] in H.
  rewrite bool_decide_eq_false_2 in H by done. cbn [negb andb] in H.
  apply Nat.ltb_ge in H. done.
Qed.

End StepMessages.

Lemma process_step_log (step : Step) (project : ProjectState) (now : Time) :
  let msgs := default [] (st_messages (state step)) in
  let agent := Some (default "" (st_current_agent (state step))) in
  messages (process_step step project now).1
  = messages project ++
    imap (λ i m,
            {| sender := if String.eqb (msg_type m) "human" then Some "User"
                         else agent;
               content := msg_content m;
               timestamp := now + i |})
      (drop (length (messages project)) msgs) ∧
  current_agent (process_step step project now).1 = agent.
Proof.
  intros msgs agent. unfold process_step. fold msgs.
  set (p0 := set_current_agent _ project).
  set (r1 := if _ && _ then _ else _).
  assert (H1 : messages r1.1
               = messages project ++
                 imap (λ i m,
                         {| sender := if String.eqb (msg_type m) "human"
                                      then Some "User" else agent;
                            content := msg_content m;
                            timestamp := now + i |})
                   (drop (length (messages project)) msgs) ∧
               current_agent r1.1 = agent).
  { subst r1. destruct (_ && _) eqn:Hcond.
    - by rewrite add_new_messages_messages, add_new_messages_current_agent.
    - cbn [fst messages set_current_agent p0] in *.
      rewrite (drop_not_longer msgs _ Hcond). cbn. by rewrite app_nil_r. }
  destruct r1 as [p1 t1]. cbn [fst] in H1. destruct H1 as [H1 Ha].
  pose proof (merge_artifacts_messages
                (default [] (st_artifacts (state step))) p1 t1) as H2.
  assert (Ha2 : current_agent
                  (merge_artifacts
                     (default [] (st_artifacts (state step))) p1 t1).1
                = current_agent p1).
  { clear. generalize (default [] (st_artifacts (state step))).
    intros items. revert p1 t1.
    induction items as [|[n a] items IH]; intros p1 t1; [done|].
    cbn [merge_artifacts]. destruct (artifacts p1 !! n); cbn; by rewrite IH. }
  destruct (merge_artifacts _ p1 t1) as [p2 t2]. cbn [fst] in H2, Ha2.
  destruct (negb _).
  - rewrite update_status_messages. split; [congruence|].
    unfold update_status. destruct (String.eqb _ _); cbn; congruence.
  - cbn [fst]. split; congruence.
Qed.

(** A pass through the loop lines the step's message list up with the log by
    position: it appends the messages of the step whose position is at least
    the current length of the log, in order, each from ["User"] when its type
    is ["human"] and from the step's agent otherwise, and drops the others.
    The log then has the length of the longer of the two lists; when the log
    is already as long as the step's list, for instance because messages
    were posted to it meanwhile, nothing is appended. *)
Theorem process_step_appends_by_position
    (step : Step) (project : ProjectState) (now : Time) :
  let msgs := default [] (st_messages (state step)) in
  let agent := Some (default "" (st_current_agent (state step))) in
  messages (process_step step project now).1
  = messages project ++
    imap (λ i m,
            {| sender := if String.eqb (msg_type m) "human" then Some "User"
                         else agent;
               content := msg_content m;
               timestamp := now + i |})
      (drop (length (messages project)) msgs) ∧
  length (messages (process_step step project now).1)
  = max (length (messages project)) (length msgs) ∧
  current_agent (process_step step project now).1 = agent.
Proof.
  intros msgs agent.
  destruct (process_step_log step project now) as [Hmsgs Hagent].
  split; [done|]. split; [|done].
  fold msgs in Hmsgs.
  rewrite Hmsgs, length_app, length_imap, length_drop. lia.
Qed.

(** ** The run only extends the project *)

Section Grows.

Implicit Types (p : ProjectState) (t : Time).

Lemma grows_refl p : grows p p.
Proof. by repeat split. Qed.

Lemma grows_trans a b c : grows a b -> grows b c -> grows a c.
Proof.
  intros (Hm1 & Ha1 & Hi1 & Hr1 & Hs1) (Hm2 & Ha2 & Hi2 & Hr2 & Hs2).
  repeat split; try congruence; by etrans.
Qed.

Lemma grows_add_message p s c ts t : grows p (add_message p s c ts t).1.
Proof.
  destruct ts; (split; [by apply prefix_app_r|by repeat split]).
Qed.

Lemma grows_add_new_messages msgs p t : grows p (add_new_messages msgs p t).1.
Proof.
  revert p t. induction msgs as [|m msgs IH]; intros p t; [apply grows_refl|].
  cbn [add_new_messages].
  pose proof (grows_add_message p
                (if String.eqb (msg_type m) "human" then Some "User"
                 else current_agent p) (msg_content m) None t) as H.
  destruct (add_message p _ (msg_content m) None t) as [p' t'].
  eapply grows_trans; [exact H|apply IH].
Qed.

Lemma grows_merge_artifacts items p t : grows p (merge_artifacts items p t).1.
Proof.
  revert p t. induction items as [|[n a] items IH]; intros p t;
    [apply grows_refl|].
  cbn [merge_artifacts]. destruct (artifacts p !! n) eqn:En; [apply IH|].
  eapply grows_trans; [|apply IH].
  split; [done|]. split; [|done]. cbn. by apply insert_subseteq.
Qed.

Lemma grows_update_status p s t : grows p (update_status p s t).1.
Proof. unfold update_status. destruct (String.eqb s "completed"); by repeat split. Qed.

Lemma grows_process_step step p t : grows p (process_step step p t).1.
Proof.
  unfold process_step.
  set (p0 := set_current_agent _ p).
  assert (H0 : grows p p0) by (by repeat split).
  set (r1 := if _ && _ then _ else _).
  assert (H1 : grows p0 r1.1).
  { subst r1. destruct (_ && _); [apply grows_add_new_messages|apply grows_refl]. }
  destruct r1 as [p1 t1]. cbn [fst] in H1.
  pose proof (grows_merge_artifacts
                (default [] (st_artifacts (state step))) p1 t1) as H2.
  destruct (merge_artifacts _ p1 t1) as [p2 t2]. cbn [fst] in H2.
  assert (H02 : grows p p2) by eauto using grows_trans.
  destruct (negb _); [|done].
  eapply grows_trans; [exact H02|apply grows_update_status].
Qed.

Lemma grows_except_suite e p t : grows p (except_suite e p t).1.
Proof.
  rewrite except_suite_eq. split; [by apply prefix_app_r|by repeat split].
Qed.

Lemma loop_states_grows g p t :
  Forall (λ r, grows p r.1) (loop_states g p t) ∧
  StronglySorted (λ a b, grows a.1 b.1) (loop_states g p t) ∧
  grows p (for_steps g p t).1.1 ∧
  Forall (λ r, grows r.1 (for_steps g p t).1.1) (loop_states g p t).
Proof.
  revert p t. induction g as [|[step|e|e] g IH]; intros p t.
  - cbn. split; [constructor|split; [constructor|split; [apply grows_refl|constructor]]].
  - cbn [loop_states for_steps].
    pose proof (grows_process_step step p t) as Hstep.
    destruct (process_step step p t) as [p' t']. cbn [fst snd] in *.
    destruct (IH p' t') as (H1 & H2 & H3 & H4).
    split; [|split; [|split]].
    + constructor; [done|].
      eapply Forall_impl; [exact H1|]. intros r Hr. by eapply grows_trans.
    + by constructor.
    + by eapply grows_trans.
    + by constructor.
  - cbn. split; [constructor|split; [constructor|split; [apply grows_refl|constructor]]].
  - cbn. split; [constructor|split; [constructor|split; [apply grows_refl|constructor]]].
Qed.

Lemma update_status_completed_at p s t :
  String.eqb s "completed" = false ->
  completed_at (update_status p s t).1 = completed_at p.
Proof. intros H. unfold update_status. by rewrite H. Qed.

Lemma add_new_messages_completed_at msgs p t :
  completed_at (add_new_messages msgs p t).1 = completed_at p.
Proof.
  revert p t. induction msgs as [|m msgs IH]; intros p t; [done|].
  cbn [add_new_messages add_message]. by rewrite IH.
Qed.

Lemma merge_artifacts_completed_at items p t :
  completed_at (merge_artifacts items p t).1 = completed_at p.
Proof.
  revert p t. induction items as [|[n a] items IH]; intros p t; [done|].
  cbn [merge_artifacts]. destruct (artifacts p !! n); cbn; by rewrite IH.
Qed.

Lemma process_step_completed_at step p t :
  completed_at (process_step step p t).1 = completed_at p.
Proof.
  unfold process_step.
  set (p0 := set_current_agent _ p).
  set (r1 := if _ && _ then _ else _).
  assert (H1 : completed_at r1.1 = completed_at p).
  { subst r1. destruct (_ && _); [|done]. by rewrite add_new_messages_completed_at. }
  destruct r1 as [p1 t1]. cbn [fst] in H1.
  pose proof (merge_artifacts_completed_at
                (default [] (st_artifacts (state step))) p1 t1) as H2.
  destruct (merge_artifacts _ p1 t1) as [p2 t2]. cbn [fst] in H2.
  destruct (negb _); [|cbn; congruence].
  rewrite update_status_completed_at by done. congruence.
Qed.

Lemma loop_states_completed_at g p t :
  Forall (λ r, completed_at r.1 = completed_at p) (loop_states g p t) ∧
  completed_at (for_steps g p t).1.1 = completed_at p.
Proof.
  revert p t. induction g as [|[step|e|e] g IH]; intros p t.
  - by split; [constructor|].
  - cbn [loop_states for_steps].
    pose proof (process_step_completed_at step p t) as Hstep.
    destruct (process_step step p t) as [p' t']. cbn [fst snd] in *.
    destruct (IH p' t') as [H1 H2]. split; [|congruence].
    constructor; [done|].
    eapply Forall_impl; [exact H1|]. intros r Hr. cbn in Hr. congruence.
  - by split; [constructor|].
  - by split; [constructor|].
Qed.

End Grows.

(** While the background task runs, every later state of the project
    extends every earlier one, the state the task found included: the
    message log only gets longer at its end, an artifact once stored stays
    as it is, and identifier, requirements and start time never change. *)
Theorem engine_run_only_extends
    (rw : string -> string -> Returned) (pid : string)
    (project : ProjectState) (now : Time) :
  StronglySorted (λ a b, grows a.1 b.1)
    ((project, now) :: engine_states rw pid project now).
Proof.
  unfold engine_states.
  pose proof (grows_update_status project "running" now) as H0.
  set (r0 := update_status project "running" now) in *.
  destruct (rw pid (requirements r0.1)) as [g|cls].
  - destruct (loop_states_grows g r0.1 r0.2) as (H1 & H2 & H3 & H4).
    set (final := match for_steps g r0.1 r0.2 with
                  | (p, t, Some (Ordinary e)) => [except_suite e p t]
                  | (p, t, Some (Exiting e)) => []
                  | (p, t, None) =>
                      [ update_status
                          (set_result (Some "Project completed successfully.") p)
                          "completed" t ]
                  end).
    assert (Hfinal : Forall (λ f, grows (for_steps g r0.1 r0.2).1.1 f.1) final
                     ∧ StronglySorted (λ a b, grows a.1 b.1) final).
    { subst final. destruct (for_steps g r0.1 r0.2) as [[p t] [[e|e]|]];
        cbn [fst].
      - split; [|repeat constructor].
        constructor; [apply grows_except_suite|constructor].
      - split; constructor.
      - split; [|repeat constructor]. constructor; [|constructor].
        eapply grows_trans; [|apply grows_update_status]. by repeat split. }
    destruct Hfinal as [Hfinal Hsorted].
    assert (Hloop : ∀ r f, r ∈ loop_states g r0.1 r0.2 -> f ∈ final ->
                           grows r.1 f.1).
    { intros r f Hr Hf. rewrite Forall_forall in H4, Hfinal.
      exact (grows_trans _ _ _ (H4 r Hr) (Hfinal f Hf)). }
    assert (H0f : Forall (λ f, grows r0.1 f.1) final).
    { eapply Forall_impl; [exact Hfinal|]. intros f Hf.
      exact (grows_trans _ _ _ H3 Hf). }
    apply StronglySorted_cons. split.
    + constructor; [done|]. apply Forall_app. split.
      * eapply Forall_impl; [exact H1|]. intros r Hr.
        exact (grows_trans _ _ _ H0 Hr).
      * eapply Forall_impl; [exact H0f|]. intros f Hf.
        exact (grows_trans _ _ _ H0 Hf).
    + apply StronglySorted_cons. split.
      * apply Forall_app. by split.
      * by apply StronglySorted_app_2.
  - pose proof (grows_except_suite (not_iterable cls) r0.1 r0.2) as Hf.
    apply StronglySorted_cons. split.
    + constructor; [exact H0|].
      constructor; [exact (grows_trans _ _ _ H0 Hf)|constructor].
    + apply StronglySorted_cons. split.
      * constructor; [exact Hf|constructor].
      * repeat constructor.
Qed.

Section Writes.

Implicit Types (p q : ProjectState) (t : Time).

Lemma update_status_writes_completed_at p s t :
  String.eqb s "completed" = false ->
  Forall (λ q, completed_at q = completed_at p) (update_status_writes p s t).
Proof.
  intros H. unfold update_status_writes. rewrite H. by repeat constructor.
Qed.

Lemma add_new_messages_writes_completed_at msgs p t :
  Forall (λ q, completed_at q = completed_at p)
    (add_new_messages_writes msgs p t).
Proof.
  revert p t. induction msgs as [|m msgs IH]; intros p t; [constructor|].
  cbn [add_new_messages_writes add_message]. constructor; [done|].
  exact (IH (set_messages _ p) _).
Qed.

Lemma merge_artifacts_writes_completed_at items p t :
  Forall (λ q, completed_at q = completed_at p)
    (merge_artifacts_writes items p t).
Proof.
  revert p t. induction items as [|[n a] items IH]; intros p t; [constructor|].
  cbn [merge_artifacts_writes]. destruct (artifacts p !! n); [apply IH|].
  cbn [add_artifact]. constructor; [done|]. exact (IH (set_artifacts _ p) _).
Qed.

Lemma process_step_writes_completed_at step p t :
  Forall (λ q, completed_at q = completed_at p) (process_step_writes step p t).
Proof.
  unfold process_step_writes.
  set (p0 := set_current_agent _ p).
  set (msgs := default [] (st_messages (state step))).
  set (r1 := if _ && _ then add_new_messages _ _ _ else _).
  assert (H1 : completed_at r1.1 = completed_at p).
  { subst r1. destruct (_ && _); [|done].
    by rewrite add_new_messages_completed_at. }
  assert (Hw1 : Forall (λ q, completed_at q = completed_at p)
                  (if negb (bool_decide (msgs = []))
                      && (length (messages p0) <? length msgs)%nat
                   then add_new_messages_writes
                          (drop (length (messages p0)) msgs) p0 t
                   else [])).
  { destruct (_ && _); [|constructor].
    exact (add_new_messages_writes_completed_at _ p0 t). }
  destruct r1 as [p1 t1]. cbn [fst] in H1.
  pose proof (merge_artifacts_writes_completed_at
                (default [] (st_artifacts (state step))) p1 t1) as Hw2.
  pose proof (merge_artifacts_completed_at
                (default [] (st_artifacts (state step))) p1 t1) as H2.
  destruct (merge_artifacts _ p1 t1) as [p2 t2]. cbn [fst] in H2.
  constructor; [done|]. apply Forall_app. split; [done|].
  apply Forall_app. split.
  - eapply Forall_impl; [exact Hw2|]. intros q Hq. cbn in Hq. congruence.
  - destruct (negb (bool_decide
                      (default [] (st_completed_steps (state step)) = [])));
      [|constructor].
    eapply Forall_impl; [by apply update_status_writes_completed_at|].
    intros q Hq. cbn in Hq. congruence.
Qed.

Lemma loop_writes_completed_at g p t :
  Forall (λ q, completed_at q = completed_at p) (loop_writes g p t).
Proof.
  revert p t. induction g as [|[step|e|e] g IH]; intros p t; try constructor.
  cbn [loop_writes]. apply Forall_app. split.
  - apply process_step_writes_completed_at.
  - eapply Forall_impl; [apply IH|]. intros q Hq. cbn in Hq.
    by rewrite Hq, process_step_completed_at.
Qed.

Lemma except_suite_writes_completed_at e p t :
  Forall (λ q, completed_at q = completed_at p) (except_suite_writes e p t).
Proof. by repeat constructor. Qed.

(** The stores of a method or a suite end in the state it returns. *)
Lemma last_through {A} (l1 l2 : list A) (y : A) :
  last l1 = Some y -> last (l1 ++ l2) = last (y :: l2).
Proof. intros H. by rewrite last_app, last_cons, H. Qed.

Lemma update_status_writes_last p s t :
  last (update_status_writes p s t) = Some (update_status p s t).1.
Proof.
  unfold update_status_writes, update_status.
  by destruct (String.eqb s "completed").
Qed.

Lemma add_new_messages_writes_last msgs p t :
  last (p :: add_new_messages_writes msgs p t)
  = Some (add_new_messages msgs p t).1.
Proof.
  revert p t. induction msgs as [|m msgs IH]; intros p t; [done|].
  cbn [add_new_messages_writes add_new_messages add_message].
  rewrite last_cons_cons. exact (IH (set_messages _ p) _).
Qed.

Lemma merge_artifacts_writes_last items p t :
  last (p :: merge_artifacts_writes items p t)
  = Some (merge_artifacts items p t).1.
Proof.
  revert p t. induction items as [|[n a] items IH]; intros p t; [done|].
  cbn [merge_artifacts_writes merge_artifacts].
  destruct (artifacts p !! n); [apply IH|].
  cbn [add_artifact]. rewrite last_cons_cons.
  exact (IH (set_artifacts _ p) _).
Qed.

Lemma process_step_writes_last step p t :
  last (process_step_writes step p t) = Some (process_step step p t).1.
Proof.
  unfold process_step_writes, process_step. cbv zeta.
  set (p0 := set_current_agent _ p).
  set (msgs := default [] (st_messages (state step))).
  set (items := default [] (st_artifacts (state step))).
  set (done_ := default [] (st_completed_steps (state step))).
  assert (H1 : last (p0 :: (if negb (bool_decide (msgs = []))
                               && (length (messages p0) <? length msgs)%nat
                            then add_new_messages_writes
                                   (drop (length (messages p0)) msgs) p0 t
                            else []))
               = Some (if negb (bool_decide (msgs = []))
                          && (length (messages p0) <? length msgs)%nat
                       then add_new_messages
                              (drop (length (messages p0)) msgs) p0 t
                       else (p0, t)).1).
  { destruct (_ && _); [apply add_new_messages_writes_last|done]. }
  destruct (if _ && _ then add_new_messages _ _ _ else _) as [p1 t1].
  cbn [fst] in H1.
  pose proof (merge_artifacts_writes_last items p1 t1) as H2.
  destruct (merge_artifacts items p1 t1) as [p2 t2]. cbn [fst] in H2.
  rewrite app_comm_cons, (last_through _ _ p1 H1), app_comm_cons.
  rewrite (last_through _ _ p2 H2).
  destruct (negb (bool_decide (done_ = []))); [|done].
  rewrite last_cons, update_status_writes_last. done.
Qed.

Lemma loop_writes_last g p t :
  last (p :: loop_writes g p t) = Some (for_steps g p t).1.1.
Proof.
  revert p t. induction g as [|[step|e|e] g IH]; intros p t; [done| |done|done].
  cbn [loop_writes for_steps].
  pose proof (process_step_writes_last step p t) as Hstep.
  destruct (process_step step p t) as [p' t']. cbn [fst snd] in *.
  rewrite last_cons, (last_through _ _ p' Hstep), IH. done.
Qed.

Lemma loop_states_in_writes g p t :
  Forall (λ r, r.1 ∈ loop_writes g p t) (loop_states g p t).
Proof.
  revert p t. induction g as [|[step|e|e] g IH]; intros p t; try constructor.
  - apply elem_of_app. left.
    apply last_Some_elem_of, process_step_writes_last.
  - eapply Forall_impl; [apply IH|]. intros r Hr.
    apply elem_of_app. by right.
Qed.

(** The states between the steps of the task are among its stores, and the
    last store leaves the object as the task leaves it. *)
Lemma engine_states_in_writes rw pid project now :
  Forall (λ r, r.1 ∈ engine_writes rw pid project now)
    (engine_states rw pid project now).
Proof.
  unfold engine_states, engine_writes.
  set (r0 := update_status project "running" now).
  change (update_status_writes project "running" now) with [r0.1].
  constructor; [by left|].
  destruct (rw pid (requirements r0.1)) as [g|cls].
  - apply Forall_app. split.
    + eapply Forall_impl; [apply loop_states_in_writes|]. intros r Hr.
      right. apply elem_of_app. by left.
    + destruct (for_steps g r0.1 r0.2) as [[p t] [[e|e]|]].
      * constructor; [|constructor]. right. apply elem_of_app. right.
        right. by left.
      * constructor.
      * constructor; [|constructor]. right. apply elem_of_app. right.
        right. right. by left.
  - constructor; [|constructor]. right. right. by left.
Qed.

Lemma engine_writes_last rw pid project now :
  last (engine_writes rw pid project now)
  = fst <$> last (engine_states rw pid project now).
Proof.
  unfold engine_states, engine_writes.
  set (r0 := update_status project "running" now).
  change (update_status_writes project "running" now) with [r0.1].
  destruct (rw pid (requirements r0.1)) as [g|cls]; [|done].
  cbn [app]. rewrite app_comm_cons.
  rewrite (last_through _ _ _ (loop_writes_last g r0.1 r0.2)).
  rewrite app_comm_cons, last_app.
  pose proof (for_steps_last_state g r0.1 r0.2) as Hlast.
  destruct (for_steps g r0.1 r0.2) as [[p t] [[e|e]|]]; cbn [fst] in *.
  - done.
  - change (last [p]) with (Some p).
    change (last (@nil (ProjectState * Time))) with (@None (ProjectState * Time)).
    cbv iota.
    rewrite (last_cons r0 (loop_states g r0.1 r0.2)).
    destruct (last (loop_states g r0.1 r0.2)) as [x|]; cbn in Hlast.
    + by subst x.
    + by injection Hlast as -> ->.
  - done.
Qed.

End Writes.

(** For a project that has no completion time when its background task
    starts, a completion time is never seen with a status other than
    ["completed"], at any moment of the run.  The converse holds between the
    steps of the task only: [update_status] stores the status first and the
    time second, so a completing run takes the object through a state with
    the status ["completed"] and no completion time, which a reader in
    another thread can see. *)
Theorem completed_at_set_exactly_when_completed
    (rw : string -> string -> Returned) (pid : string)
    (project : ProjectState) (now : Time) :
  completed_at project = None ->
  Forall (λ q, is_Some (completed_at q) -> status q = "completed")
    (engine_writes rw pid project now) ∧
  Forall (λ r, is_Some (completed_at r.1) <-> status r.1 = "completed")
    (engine_states rw pid project now) ∧
  Forall (λ r, r.1 ∈ engine_writes rw pid project now)
    (engine_states rw pid project now) ∧
  (∀ steps,
     rw pid (requirements project) = Generator (Yield <$> steps) ->
     ∃ q,
       q ∈ engine_writes rw pid project now ∧
       status q = "completed" ∧ completed_at q = None).
Proof.
  intros Hnone.
  assert (Hclosed : ∀ l : list ProjectState,
            Forall (λ q, completed_at q = None) l ->
            Forall (λ q, is_Some (completed_at q) -> status q = "completed") l).
  { intros l Hl. eapply Forall_impl; [exact Hl|].
    intros q Hq [x Hx]. cbn in Hq. congruence. }
  split; [|split; [|split; [apply engine_states_in_writes|]]].
  - unfold engine_writes.
    set (r0 := update_status project "running" now).
    assert (Hr0 : completed_at r0.1 = None) by done.
    apply Forall_app. split; [apply Hclosed; by repeat constructor|].
    destruct (rw pid (requirements r0.1)) as [g|cls].
    + apply Forall_app. split.
      * apply Hclosed. rewrite <- Hr0. apply loop_writes_completed_at.
      * destruct (loop_states_completed_at g r0.1 r0.2) as [_ H2].
        destruct (for_steps g r0.1 r0.2) as [[p t] [[e|e]|]]; cbn [fst] in H2.
        -- apply Hclosed. rewrite <- Hr0, <- H2.
           apply except_suite_writes_completed_at.
        -- constructor.
        -- assert (Hp : completed_at p = None) by congruence.
           constructor; [cbn; rewrite Hp; by intros [? ?]|].
           constructor; [cbn; rewrite Hp; by intros [? ?]|].
           constructor; [done|constructor].
    + apply Hclosed. rewrite <- Hr0. apply except_suite_writes_completed_at.
  - unfold engine_states.
    set (r0 := update_status project "running" now).
    assert (Hr0 : completed_at r0.1 = None) by done.
    assert (Hopen : ∀ q : ProjectState,
              completed_at q = None -> terminal (status q) = false ->
              is_Some (completed_at q) <-> status q = "completed").
    { intros q Hq Ht. rewrite Hq. split; [by intros [? ?]|].
      intros Hs. rewrite Hs in Ht. done. }
    constructor; [by apply Hopen|].
    destruct (rw pid (requirements r0.1)) as [g|cls].
    + destruct (loop_states_completed_at g r0.1 r0.2) as [H1 H2].
      pose proof (loop_states_not_terminal g r0.1 r0.2 eq_refl) as H3.
      apply Forall_app. split.
      * rewrite Forall_forall in H1, H3. apply Forall_forall. intros r Hr.
        apply Hopen; [|by apply H3]. rewrite (H1 r Hr). done.
      * destruct (for_steps g r0.1 r0.2) as [[p t] [[e|e]|]]; cbn [fst] in *.
        -- constructor; [|constructor].
           assert (Hp : completed_at p = None) by congruence.
           rewrite except_suite_eq. cbn. rewrite Hp.
           split; [by intros [? ?]|done].
        -- constructor.
        -- constructor; [|constructor]. cbn. split; [done|by eexists].
    + constructor; [|constructor]. rewrite except_suite_eq.
      cbn [fst completed_at set_status set_messages status].
      rewrite Hr0. split; [by intros [? ?]|done].
  - intros steps Hrw. unfold engine_writes.
    set (r0 := update_status project "running" now).
    assert (Hr0 : completed_at r0.1 = None) by done.
    change (requirements r0.1) with (requirements project). rewrite Hrw.
    destruct (loop_states_completed_at (Yield <$> steps) r0.1 r0.2) as [_ H2].
    pose proof (for_steps_yield steps r0.1 r0.2) as Hn.
    destruct (for_steps (Yield <$> steps) r0.1 r0.2) as [[p t] r].
    cbn [fst snd] in *. subst r.
    exists (set_status "completed"
              (set_result (Some "Project completed successfully.") p)).
    split; [|split; [done|cbn; congruence]].
    apply elem_of_app. right. apply elem_of_app. right.
    apply elem_of_cons. right. apply elem_of_cons. by left.
Qed.

Lemma completed_at_set_exactly_when_completed_witness :
  Forall (λ q, is_Some (completed_at q) -> status q = "completed")
    (engine_writes Sample.shrinking "p1" Sample.fresh_project 2) ∧
  ∃ q,
    q ∈ engine_writes Sample.shrinking "p1" Sample.fresh_project 2 ∧
    status q = "completed" ∧ completed_at q = None.
Proof.
  destruct (completed_at_set_exactly_when_completed Sample.shrinking "p1"
              Sample.fresh_project 2) as (Hall & _ & _ & Hsome).
  - reflexivity.
  - split; [exact Hall|]. apply (Hsome [Sample.reporting 2; Sample.reporting 1]).
    reflexivity.
Defined.

(** The stores of the task lead to the state it leaves behind: for a
    registered project, every state between the steps of the task is among
    its stores, and the last store leaves the object as the registry holds
    it when the call ends, whether it returns or an exception leaves it. *)
Theorem task_stores_end_in_the_registered_state
    (rw : string -> string -> Returned) (pid : string) (w : World)
    (project : ProjectState) :
  active_projects w !! pid = Some project ->
  Forall (λ r, r.1 ∈ engine_writes rw pid project (clock w))
    (engine_states rw pid project (clock w)) ∧
  ∃ final,
    last (engine_writes rw pid project (clock w)) = Some final ∧
    match run_project_workflow rw pid w with
    | Returns w' => active_projects w' !! pid = Some final
    | Escapes e w' => active_projects w' !! pid = Some final
    end.
Proof.
  intros Hin. split; [apply engine_states_in_writes|].
  rewrite engine_writes_last.
  destruct (run_project_workflow_last rw pid w project Hin)
    as (final & Hlast & [Hret|(e & _ & Hret)]);
    rewrite Hlast, Hret; exists final.1; by rewrite commit_lookup.
Qed.

Lemma task_stores_end_in_the_registered_state_witness :
  ∃ final,
    last (engine_writes Sample.exiting "p1" Sample.fresh_project 2)
    = Some final ∧
    status final = "In progress - 14% complete".
Proof.
  destruct (task_stores_end_in_the_registered_state Sample.exiting "p1"
              Sample.started Sample.fresh_project)
    as (_ & final & Hlast & Hreg).
  - reflexivity.
  - exists final. split; [exact Hlast|].
    change (Some (process_step (Sample.reporting 1)
                    (set_status "running" Sample.fresh_project) 2).1
            = Some final) in Hreg.
    by injection Hreg as <-.
Defined.

(** ** The registry and the endpoints *)

Section Registry.


Lemma merge_artifacts_absent items p t name :
  name ∉ items.*1 ->
  artifacts p !! name = None ->
  artifacts (merge_artifacts items p t).1 !! name = None.
Proof.
  revert p t. induction items as [|[n a] items IH]; intros p t Hnot Hout;
    [done|].
  cbn [fmap list_fmap fst] in Hnot.
  apply not_elem_of_cons in Hnot as [Hne Hnot].
  cbn [merge_artifacts]. destruct (artifacts p !! n) eqn:En.
  - by apply IH.
  - apply IH; [done|]. cbn. by rewrite lookup_insert_ne.
Qed.

Lemma process_step_absent step p t name :
  name ∉ (default [] (st_artifacts (state step))).*1 ->
  artifacts p !! name = None ->
  artifacts (process_step step p t).1 !! name = None.
Proof.
  intros Hnot Hout. unfold process_step.
  set (p0 := set_current_agent _ p).
  set (r1 := if _ && _ then _ else _).
  assert (H1 : artifacts r1.1 !! name = None).
  { subst r1. destruct (_ && _); [|done]. by rewrite add_new_messages_artifacts. }
  destruct r1 as [p1 t1]. cbn [fst] in H1.
  pose proof (merge_artifacts_absent _ p1 t1 name Hnot H1) as H2.
  destruct (merge_artifacts _ p1 t1) as [p2 t2]. cbn [fst] in H2.
  destruct (negb _); [|done]. by rewrite update_status_artifacts.
Qed.

Lemma process_step_stores step p t name art items1 items2 :
  st_artifacts (state step) = Some (items1 ++ (name, art) :: items2) ->
  name ∉ items1.*1 ->
  artifacts p !! name = None ->
  ∃ a,
    artifacts (process_step step p t).1 !! name = Some a ∧
    a_content a = default "" (sa_content art) ∧
    a_type a = default "" (sa_type art) ∧
    a_created_by a = default "" (sa_created_by art).
Proof.
  intros Hart Hnot Hout. unfold process_step. rewrite Hart. cbn [default].
  set (p0 := set_current_agent _ p).
  set (r1 := if _ && _ then _ else _).
  assert (H1 : artifacts r1.1 !! name = None).
  { subst r1. destruct (_ && _); [|done]. by rewrite add_new_messages_artifacts. }
  destruct r1 as [p1 t1]. cbn [fst] in H1.
  pose proof (merge_artifacts_first items1 name art items2 p1 t1 H1 Hnot) as H2.
  destruct (merge_artifacts _ p1 t1) as [p2 t2]. cbn [fst] in H2.
  eexists. split.
  - destruct (negb _); [rewrite update_status_artifacts|]; exact H2.
  - done.
Qed.

Lemma for_steps_yield_app pre g p t :
  for_steps ((Yield <$> pre) ++ g) p t
  = for_steps g (for_steps (Yield <$> pre) p t).1.1
      (for_steps (Yield <$> pre) p t).1.2.
Proof.
  revert p t. induction pre as [|step pre IH]; intros p t; [done|].
  cbn [fmap list_fmap app for_steps].
  destruct (process_step step p t) as [p' t']. apply IH.
Qed.

Lemma for_steps_absent pre p t name :
  Forall (λ s, name ∉ (default [] (st_artifacts (state s))).*1) pre ->
  artifacts p !! name = None ->
  artifacts (for_steps (Yield <$> pre) p t).1.1 !! name = None.
Proof.
  intros Hpre. revert p t.
  induction Hpre as [|step pre Hstep _ IH]; intros p t Hout; [done|].
  cbn [fmap list_fmap for_steps].
  pose proof (process_step_absent step p t name Hstep Hout) as H.
  destruct (process_step step p t) as [p' t']. by apply IH.
Qed.

Lemma merge_artifacts_dom items p t :
  dom (artifacts (merge_artifacts items p t).1)
  = dom (artifacts p) ∪ list_to_set items.*1.
Proof.
  revert p t. induction items as [|[n a] items IH]; intros p t.
  - cbn [merge_artifacts fst fmap list_fmap]. rewrite list_to_set_nil.
    by rewrite (right_id_L ∅ (∪)).
  - cbn [merge_artifacts]. destruct (artifacts p !! n) eqn:En.
    + cbn beta iota. rewrite IH. cbn [fmap list_fmap fst].
      rewrite list_to_set_cons. apply elem_of_dom_2 in En.
      apply set_eq. intros x. rewrite !elem_of_union, elem_of_singleton.
      split; [tauto|]. intros [?|[->|?]]; auto.
    + cbn [add_artifact]. cbn beta iota. rewrite IH.
      cbn [artifacts set_artifacts]. rewrite dom_insert_L.
      cbn [fmap list_fmap fst]. rewrite list_to_set_cons.
      apply set_eq. intros x. rewrite !elem_of_union. tauto.
Qed.

End Registry.

(** After a pass through the loop the project has artifacts under exactly
    the names it had before and the names the step carries: every name of
    the step is stored, and no other name appears. *)
Theorem process_step_artifact_names
    (step : Step) (project : ProjectState) (now : Time) :
  dom (artifacts (process_step step project now).1)
  = dom (artifacts project)
    ∪ list_to_set (default [] (st_artifacts (state step))).*1.
Proof.
  unfold process_step.
  set (p0 := set_current_agent _ project).
  set (r1 := if _ && _ then _ else _).
  assert (H1 : artifacts r1.1 = artifacts project).
  { subst r1. destruct (_ && _); [|done]. by rewrite add_new_messages_artifacts. }
  destruct r1 as [p1 t1]. cbn [fst] in H1.
  pose proof (merge_artifacts_dom
                (default [] (st_artifacts (state step))) p1 t1) as H2.
  destruct (merge_artifacts _ p1 t1) as [p2 t2]. cbn [fst] in H2.
  rewrite H1 in H2.
  destruct (negb _); [rewrite update_status_artifacts|]; exact H2.
Qed.

(** An artifact that a step of a completed run is the first to carry can be
    fetched afterwards: when the workflow yields all its steps, the project
    had no artifact [name], no step before [step] carries [name] and the
    first entry for [name] in [step] is [art], then after the run
    [get_artifact] answers with the content, type and creator of [art]
    (missing keys read as the empty string), whatever later steps carry
    under that name. *)
Theorem first_artifact_is_served
    (rw : string -> string -> Returned) (w : World) (pid : string)
    (project : ProjectState) (pre post : list Step) (step : Step)
    (name : string) (art : StepArtifact)
    (items1 items2 : list (string * StepArtifact)) :
  active_projects w !! pid = Some project ->
  artifacts project !! name = None ->
  rw pid (requirements project) = Generator (Yield <$> (pre ++ step :: post)) ->
  Forall (λ s, name ∉ (default [] (st_artifacts (state s))).*1) pre ->
  st_artifacts (state step) = Some (items1 ++ (name, art) :: items2) ->
  name ∉ items1.*1 ->
  ∃ w' body,
    run_project_workflow rw pid w = Returns w' ∧
    get_artifact pid name w' = Ok body ∧
    artifact_name body = name ∧
    a_content (artifact body) = default "" (sa_content art) ∧
    a_type (artifact body) = default "" (sa_type art) ∧
    a_created_by (artifact body) = default "" (sa_created_by art).
Proof.
  intros Hin Hout Hrw Hpre Hart Hnot.
  unfold run_project_workflow, try_suite. rewrite Hin.
  cbn [update_status String.eqb Ascii.eqb Bool.eqb set_status requirements].
  rewrite Hrw.
  set (p0 := set_status "running" project).
  pose proof (for_steps_yield (pre ++ step :: post) p0 (clock w)) as Hnone.
  assert (Hstored : ∃ a,
            artifacts (for_steps (Yield <$> (pre ++ step :: post)) p0 (clock w)).1.1
              !! name = Some a ∧
            a_content a = default "" (sa_content art) ∧
            a_type a = default "" (sa_type art) ∧
            a_created_by a = default "" (sa_created_by art)).
  { rewrite fmap_app, for_steps_yield_app. cbn [fmap list_fmap for_steps].
    pose proof (for_steps_absent pre p0 (clock w) name Hpre Hout) as Habs.
    destruct (for_steps (Yield <$> pre) p0 (clock w)) as [[p1 t1] r1].
    cbn [fst snd] in *.
    destruct (process_step_stores step p1 t1 name art items1 items2
                Hart Hnot Habs) as (a & Ha & Hfields).
    destruct (process_step step p1 t1) as [p2 t2]. cbn [fst] in Ha.
    exists a. split; [|done]. by apply for_steps_keeps. }
  destruct (for_steps _ p0 (clock w)) as [[p t] r]. cbn [fst snd] in *.
  subst r. destruct Hstored as (a & Ha & Hc & Hty & Hby).
  eexists _, _. split; [reflexivity|].
  unfold get_artifact. rewrite commit_lookup.
  cbn [artifacts set_completed_at set_status set_result]. rewrite Ha.
  by repeat split.
Qed.

Lemma first_artifact_is_served_witness :
  ∃ w' body,
    run_project_workflow Sample.two_steps "p1" Sample.started = Returns w' ∧
    get_artifact "p1" "brd" w' = Ok body ∧
    a_content (artifact body) = "first".
Proof.
  destruct (first_artifact_is_served Sample.two_steps Sample.started "p1"
              Sample.fresh_project []
              [Sample.step_with "database_designer" []
                 [("brd", Sample.text_artifact "second")]
                 ["business_analysis"; "database_design"]]
              (Sample.step_with "business_analyst" []
                 [("brd", Sample.text_artifact "first")] ["business_analysis"])
              "brd" (Sample.text_artifact "first") [] [])
    as (w' & body & Hrun & Hget & _ & Hc & _).
  - reflexivity.
  - reflexivity.
  - reflexivity.
  - constructor.
  - reflexivity.
  - cbn. apply not_elem_of_nil.
  - exists w', body. by repeat split.
Defined.

(** The background task writes one registry entry and nothing else:
    however the call ends, every other project, the session and the list of
    threads are as before.  When the project is registered, the call returns
    unless an exception that is not an [Exception] ([SystemExit], say) leaves
    the [try] suite: [except Exception] lets that one through, with the
    project as the suite left it.  When the project is not registered, the
    lookup, which stands before the [try], lets the [KeyError] escape, and
    the world is untouched. *)
Theorem run_project_workflow_touches_one_project
    (rw : string -> string -> Returned) (pid : string) (w : World) :
  match run_project_workflow rw pid w with
  | Returns w' =>
      is_Some (active_projects w !! pid) ∧
      is_Some (active_projects w' !! pid) ∧
      (∀ other, other ≠ pid ->
         active_projects w' !! other = active_projects w !! other) ∧
        session w' = session w ∧
        threads w' = threads w
  | Escapes e w' =>
      (∀ other, other ≠ pid ->
         active_projects w' !! other = active_projects w !! other) ∧
      session w' = session w ∧
      threads w' = threads w ∧
      ((active_projects w !! pid = None ∧ e = key_error pid ∧ w' = w) ∨
       (∃ project p t,
          active_projects w !! pid = Some project ∧
          try_suite rw pid project (clock w) = (p, t, Some (Exiting e)) ∧
          w' = commit pid p t w))
  end.
Proof.
  unfold run_project_workflow.
  destruct (active_projects w !! pid) as [project|] eqn:Hin;
    [|by repeat split; left].
  destruct (try_suite rw pid project (clock w)) as [[p t] [[e|e]|]] eqn:Htry.
  - destruct (except_suite e p t) as [p' t'].
    split; [done|]. split; [by rewrite commit_lookup|].
    split; [|done]. intros other Hne. by apply commit_lookup_ne.
  - split; [intros other Hne; by apply commit_lookup_ne|].
    split; [done|]. split; [done|]. right. by exists project, p, t.
  - split; [done|]. split; [by rewrite commit_lookup|].
    split; [|done]. intros other Hne. by apply commit_lookup_ne.
Qed.



(** For an identifier the registry does not hold, every endpoint answers
    "Project not found": the four JSON reads and [send_message] with the
    status 404, the results page with the error page; none of them creates
    the project or changes anything else. *)
Theorem unknown_project_is_not_found (w : World) (pid : string) :
  active_projects w !! pid = None ->
  project_status pid w = Error 404 "Project not found" ∧
  (∀ last_id, project_messages pid last_id w = Error 404 "Project not found") ∧
  project_artifacts pid w = Error 404 "Project not found" ∧
  (∀ name, get_artifact pid name w = Error 404 "Project not found") ∧
  results pid w = ErrorPage "Project not found" ∧
  (∀ text, pid ≠ "" -> text ≠ "" ->
     send_message (Some pid) (Some text) w
     = (Error 404 "Project not found", w)).
Proof.
  intros Hout.
  unfold project_status, project_messages, project_artifacts, get_artifact,
    results, send_message.
  rewrite Hout. repeat split.
  intros text Hpid Htext.
  by rewrite (truthy_Some pid Hpid), (truthy_Some text Htext).
Qed.

Lemma unknown_project_is_not_found_witness :
  project_status "p9" Sample.ended = Error 404 "Project not found" ∧
  send_message (Some "p9") (Some "Any news?") Sample.ended
  = (Error 404 "Project not found", Sample.ended).
Proof.
  destruct (unknown_project_is_not_found Sample.ended "p9")
    as (Hstatus & _ & _ & _ & _ & Hsend).
  - reflexivity.
  - split; [exact Hstatus|]. apply Hsend; discriminate.
Defined.

(** [send_message] changes the world only when it answers with success, and
    it does so exactly when both fields are non-empty and the project is
    registered.  Otherwise the world is as before, and the answer is 400
    when a field is missing or empty, even for an unknown project, and 404
    only when both fields are given. *)
Theorem send_message_outcomes
    (pid message : option string) (w : World) :
  match send_message pid message w with
  | (Ok _, w') =>
      ∃ id text project,
        pid = Some id ∧ message = Some text ∧ id ≠ "" ∧ text ≠ "" ∧
        active_projects w !! id = Some project ∧
        (length ∘ messages) <$> active_projects w' !! id
        = Some (S (length (messages project)))
  | (Error code _, w') =>
      w' = w ∧
      (code = 400 <-> truthy pid = false ∨ truthy message = false) ∧
      (code = 404 <->
         truthy pid = true ∧ truthy message = true ∧
         active_projects w !! default "" pid = None)
  end.
Proof.
  assert (Hrefuse : ∀ (code : nat) (a b : bool) (lookup : option ProjectState),
            (code = 400 ∧ (a = false ∨ b = false)) ∨
            (code = 404 ∧ a = true ∧ b = true ∧ lookup = None) ->
            (code = 400 <-> a = false ∨ b = false) ∧
            (code = 404 <-> a = true ∧ b = true ∧ lookup = None)).
  { intros code a b lookup [[-> Hab]|(-> & -> & -> & ->)].
    - split; [done|]. split; [done|]. intros (-> & -> & _). by destruct Hab.
    - split; [|done]. split; [done|]. by intros [?|?]. }
  unfold send_message.
  destruct pid as [id|]; [|split; [done|]; apply Hrefuse; left; by split; [|left]].
  destruct message as [text|];
    [|split; [done|]; apply Hrefuse; left; by split; [|right]].
  destruct (truthy (Some id)) eqn:Hid; cbn [negb orb];
    [|split; [done|]; apply Hrefuse; left; by split; [|left]].
  destruct (truthy (Some text)) eqn:Htext; cbn [negb];
    [|split; [done|]; apply Hrefuse; left; by split; [|right]].
  destruct (active_projects w !! id) as [project|] eqn:Hin;
    [|split; [done|]; apply Hrefuse; right; by cbn [default]].
  exists id, text, project.
  cbn in Hid, Htext.
  apply negb_true_iff, String.eqb_neq in Hid.
  apply negb_true_iff, String.eqb_neq in Htext.
  split; [done|]. split; [done|]. split; [done|]. split; [done|].
  split; [done|].
  rewrite commit_lookup. cbn. rewrite length_app. cbn.
  f_equal. lia.
Qed.

(** The chat page shows the project identifier of the caller's session and
    only draws a new one when the session has none.  It never registers a
    project or starts a task, and calling it again shows the same
    identifier. *)
Theorem chat_keeps_the_session_project (uuid4 : string) (w : World) :
  ∃ id,
    (chat uuid4 w).1 = ChatPage id ∧
    session (chat uuid4 w).2 = Some id ∧
    id = default uuid4 (session w) ∧
    active_projects (chat uuid4 w).2 = active_projects w ∧
    threads (chat uuid4 w).2 = threads w ∧
    clock (chat uuid4 w).2 = clock w ∧
    (∀ other, chat other (chat uuid4 w).2 = (ChatPage id, (chat uuid4 w).2)).
Proof.
  unfold chat. destruct (session w) as [s|] eqn:Hs.
  - exists s. cbn. rewrite Hs. by repeat split.
  - exists uuid4. by repeat split.
Qed.

(** The results page is out of reach with the workflow of
    [workflow/graph.py]: after the background task of a registered project
    has run, [results] shows "Project not yet completed".  With a workflow
    that yields all its steps the page shows the project and its
    artifacts. *)
Theorem results_page_needs_a_completed_run
    (w : World) (pid : string) (project : ProjectState) :
  active_projects w !! pid = Some project ->
  (∀ print uuid4,
     ∃ w',
       run_project_workflow (graph_run_workflow print uuid4) pid w
       = Returns w' ∧
       results pid w' = ErrorPage "Project not yet completed") ∧
  (∀ rw steps,
     rw pid (requirements project) = Generator (Yield <$> steps) ->
     ∃ w' final,
       run_project_workflow rw pid w = Returns w' ∧
       active_projects w' !! pid = Some final ∧
       results pid w' = ResultsPage final (artifacts final)).
Proof.
  intros Hin. split.
  - intros print uuid4. unfold run_project_workflow. rewrite Hin.
    eexists. split; [reflexivity|].
    unfold results. by rewrite commit_lookup.
  - intros rw steps Hrw.
    unfold run_project_workflow, try_suite. rewrite Hin.
    cbn [update_status String.eqb Ascii.eqb Bool.eqb set_status requirements].
    rewrite Hrw.
    pose proof (for_steps_yield steps (set_status "running" project) (clock w))
      as Hnone.
    destruct (for_steps _ _ _) as [[p t] r]. cbn in Hnone. subst r.
    eexists _, _. split; [reflexivity|]. split; [apply commit_lookup|].
    unfold results. by rewrite commit_lookup.
Qed.

Lemma results_page_needs_a_completed_run_witness :
  ∃ w',
    run_project_workflow (graph_run_workflow Sample.print_ok "g1") "p1"
      Sample.started = Returns w' ∧
    results "p1" w' = ErrorPage "Project not yet completed".
Proof.
  exact (proj1 (results_page_needs_a_completed_run Sample.started "p1"
                  Sample.fresh_project eq_refl) Sample.print_ok "g1").
Defined.

(** The progress is not capped: the loop counts the entries of
    [completed_steps] as they come, so a step that reports more than seven
    entries (up to 1000, the range checked), be it by naming a step twice,
    makes the task publish a progress above 100. *)
Theorem progress_is_not_capped
    (step : Step) (project : ProjectState) (now : Time) :
  (7 < completed_count step ≤ 1000)%nat ->
  ∃ n,
    published step = Some n ∧ (100 < n)%Z ∧
    status (process_step step project now).1
    = "In progress - " +:+ str_int n +:+ "% complete".
Proof.
  intros [Hgt Hle]. eexists. split; [|split].
  - rewrite published_floor by done. by rewrite decide_False by lia.
  - assert (101 ≤ 100 * Z.of_nat (completed_count step) / 7)%Z
      by (apply Z.div_le_lower_bound; lia).
    lia.
  - rewrite process_step_published, published_floor by done.
    by rewrite decide_False by lia.
Qed.

Lemma progress_is_not_capped_witness :
  status (process_step Sample.over_reporting Sample.fresh_project 2).1
  = "In progress - 114% complete".
Proof.
  destruct (progress_is_not_capped Sample.over_reporting Sample.fresh_project 2)
    as (n & Hpub & _ & Hst).
  - cbn. lia.
  - rewrite Hst. injection Hpub as <-. reflexivity.
Defined.

(** ** [run_workflow] of [workflow/graph.py] *)

Section GraphFacts.

Variable print : string -> option Exn.

Lemma run_phases_spec (todo : list string) (st : Graph.WorkflowState) :
  ∃ k,
    (k ≤ length todo)%nat ∧
    Graph.completed_phases (Graph.run_phases print todo st).1
    = Graph.completed_phases st ++ take k todo ∧
    Graph.errors (Graph.run_phases print todo st).1 = Graph.errors st ∧
    Graph.requirements (Graph.run_phases print todo st).1
    = Graph.requirements st ∧
    Graph.project_id (Graph.run_phases print todo st).1 = Graph.project_id st ∧
    (∀ step, step ∈ take (pred k) todo ->
       print ("Executing phase: " +:+ step) = None) ∧
    match (Graph.run_phases print todo st).2 with
    | None =>
        k = length todo ∧
        (∀ step, step ∈ todo -> print ("Executing phase: " +:+ step) = None)
    | Some e =>
        (1 ≤ k)%nat ∧
        todo !! pred k
        = Some (Graph.current_phase (Graph.run_phases print todo st).1) ∧
        print ("Executing phase: "
                 +:+ Graph.current_phase (Graph.run_phases print todo st).1)
        = Some e
    end.
Proof.
  revert st. induction todo as [|step todo IH]; intros st.
  - exists 0. cbn. rewrite app_nil_r.
    repeat split; try done; intros step Hin; by apply elem_of_nil in Hin.
  - cbn [Graph.run_phases].
    destruct (print ("Executing phase: " +:+ step)) as [e|] eqn:Hp.
    + exists 1. cbn. repeat split; try done; try lia.
      intros s Hin. by apply elem_of_nil in Hin.
    + destruct (IH (Graph.enter_phase step st))
        as (k & Hk & Hc & He & Hr & Hi & Hok & Hend).
      exists (S k). cbn [length take].
      split; [lia|]. split; [by rewrite Hc; cbn; rewrite <- app_assoc|].
      split; [done|]. split; [done|]. split; [done|]. split.
      * intros s Hin. cbn [pred] in Hin.
        destruct k as [|k]; [by apply elem_of_nil in Hin|].
        cbn [take] in Hin. apply elem_of_cons in Hin as [->|Hin]; [done|].
        by apply Hok.
      * destruct (Graph.run_phases print todo (Graph.enter_phase step st)).2
          as [e|].
        -- destruct Hend as (Hk1 & Hlook & Hfail).
           split; [lia|]. split; [|done].
           destruct k as [|k]; [lia|]. done.
        -- destruct Hend as [-> Hall]. split; [done|].
           intros s Hin. apply elem_of_cons in Hin as [->|Hin]; [done|].
           by apply Hall.
Qed.

End GraphFacts.

(** [run_workflow] always returns a state, for the requirements it was
    given, and ignores its first argument.  The phases it lists as completed
    are the first [k] of the pipeline.  When no phase fails all seven are
    listed and no error is recorded.  When a phase fails the run stops
    there with exactly one error recorded, and the failing phase, which is
    the current phase, is itself listed as completed. *)
Theorem graph_run_workflow_counts_the_failing_phase
    (print : string -> option Exn) (uuid4 workflow requirements : string) :
  let state := Graph.run_workflow print uuid4 workflow requirements in
  Graph.requirements state = requirements ∧
  state = Graph.run_workflow print uuid4 "" requirements ∧
  ∃ k,
    (k ≤ 7)%nat ∧
    Graph.completed_phases state = take k Graph.steps ∧
    ((k = 7 ∧ Graph.errors state = [] ∧
      ∀ step, step ∈ Graph.steps ->
        print ("Executing phase: " +:+ step) = None) ∨
     (∃ e,
        (1 ≤ k)%nat ∧
        Graph.errors state = [exn_str e] ∧
        Graph.steps !! pred k = Some (Graph.current_phase state) ∧
        last (Graph.completed_phases state) = Some (Graph.current_phase state) ∧
        print ("Executing phase: " +:+ Graph.current_phase state) = Some e)).
Proof.
  intros state. subst state. unfold Graph.run_workflow.
  destruct (run_phases_spec print Graph.steps
              (Graph.new_state uuid4 requirements))
    as (k & Hk & Hc & He & Hr & _ & _ & Hend).
  destruct (Graph.run_phases print Graph.steps
              (Graph.new_state uuid4 requirements)) as [st [e|]];
    cbn [fst snd] in *.
  - split; [done|]. split; [done|]. exists k. split; [done|].
    split; [done|]. right. exists e.
    destruct Hend as (Hk1 & Hlook & Hfail).
    split; [done|]. split; [by cbn; rewrite He|]. split; [done|].
    split; [|done]. cbn [Graph.completed_phases Graph.record_error
                         Graph.current_phase].
    rewrite Hc. cbn [app Graph.new_state Graph.completed_phases].
    rewrite last_lookup, length_take, Nat.min_l by done.
    rewrite lookup_take_lt by lia. done.
  - split; [done|]. split; [done|]. exists k. split; [done|].
    split; [done|]. left. destruct Hend as [-> Hall]. by repeat split.
Qed.

(** ** [main.py] *)

Section MainFacts.

Lemma read_lines_blank (lines rest : list string) :
  "" ∉ lines -> Main.read_lines (lines ++ "" :: rest) = Some (lines, rest).
Proof.
  induction lines as [|line lines IH]; intros Hnot; [done|].
  apply not_elem_of_cons in Hnot as [Hne Hnot].
  cbn [app Main.read_lines].
  assert (String.eqb line "" = false) as -> by (apply String.eqb_neq; congruence).
  by rewrite IH.
Qed.

Lemma read_lines_eof (lines : list string) :
  "" ∉ lines -> Main.read_lines lines = None.
Proof.
  induction lines as [|line lines IH]; intros Hnot; [done|].
  apply not_elem_of_cons in Hnot as [Hne Hnot].
  cbn [Main.read_lines].
  assert (String.eqb line "" = false) as -> by (apply String.eqb_neq; congruence).
  by rewrite IH.
Qed.

Lemma save_artifacts_loop_spec dir items init :
  (Main.save_artifacts_loop dir items init).1
  = (λ '(name, art),
       (Main.path_join dir (name +:+ Main.file_extension_for name art),
        Main.Text (default "" (sa_content art)))) <$> items ∧
  (Main.save_artifacts_loop dir items init).2
  = match last items with
    | Some (name, art) => Some (Main.file_extension_for name art)
    | None => init
    end.
Proof.
  revert init. induction items as [|[name art] items IH]; intros init; [done|].
  cbn [Main.save_artifacts_loop fst snd fmap list_fmap].
  destruct (IH (Some (Main.file_extension_for name art))) as [H1 H2].
  rewrite H1, H2. split; [done|].
  destruct items as [|item items]; [done|]. rewrite last_cons_cons.
  destruct (last (item :: items)) as [[n a]|] eqn:E; [done|].
  by apply last_None in E.
Qed.

End MainFacts.

(** Typed requirements end at the first empty line: [read_requirements]
    without a file path (or with the empty path) returns the lines before
    it joined by newlines and leaves the input after it unread.  When the
    input ends before any empty line, and so when the user ends it with the
    end-of-file key the prompt mentions, [EOFError] escapes. *)
Theorem read_requirements_stops_at_blank_line
    (files : gmap string string) (lines rest : list string) :
  "" ∉ lines ->
  Main.read_requirements None files (lines ++ "" :: rest)
  = (Main.Done (String.concat Main.newline lines), rest, [Main.prompt]) ∧
  Main.read_requirements (Some "") files (lines ++ "" :: rest)
  = Main.read_requirements None files (lines ++ "" :: rest) ∧
  Main.read_requirements None files lines
  = (Main.Failed Main.eof_error, [], [Main.prompt]).
Proof.
  intros Hnot. unfold Main.read_requirements. cbn [truthy negb String.eqb].
  by rewrite read_lines_blank, read_lines_eof.
Qed.

Lemma read_requirements_stops_at_blank_line_witness :
  Main.read_requirements None ∅
    (["Build a task tracker"; "with reports"] ++ "" :: ["ignored"])
  = (Main.Done
       (String.concat Main.newline ["Build a task tracker"; "with reports"]),
     ["ignored"], [Main.prompt]).
Proof.
  apply (read_requirements_stops_at_blank_line ∅
           ["Build a task tracker"; "with reports"] ["ignored"]).
  intros Hin. repeat (apply elem_of_cons in Hin as [Hin|Hin]; [discriminate|]).
  by apply elem_of_nil in Hin.
Defined.

(** With [--save-artifacts], every artifact is written to a file named by
    its own type (and, for code, by whether its name contains "database"),
    but [index.json] names every file with the extension computed for the
    artifact saved last: the comprehension reads the loop variable after the
    loop.  An entry of the index can so name a file that was not written. *)
Theorem index_uses_the_last_extension
    (output : string) (pre : list (string * StepArtifact))
    (name : string) (art : StepArtifact) :
  let items := pre ++ [(name, art)] in
  let dir := Main.path_join output "artifacts" in
  (Main.save_outputs output true items).1
  = [(Main.path_join output "final_report.md",
      Main.Text (Main.final_report items))] ++
    ((λ '(n, a),
        (Main.path_join dir (n +:+ Main.file_extension_for n a),
         Main.Text (default "" (sa_content a)))) <$> items) ++
    [(Main.path_join dir "index.json",
      Main.Index
        ((λ '(n, a),
            (n, {| Main.entry_type := default "" (sa_type a);
                   Main.entry_created_by := default "" (sa_created_by a);
                   Main.entry_file :=
                     n +:+ Main.file_extension_for name art |})) <$> items))].
Proof.
  intros items dir. unfold Main.save_outputs. fold dir. cbn [fst snd].
  destruct (save_artifacts_loop_spec dir items None) as [H1 H2].
  rewrite H1, H2. subst items. rewrite last_snoc. done.
Qed.

Section Tracker.

Implicit Types (s : Main.Tracker).

Lemma mark_completed_spec names s :
  NoDup (Main.completed_steps s) ->
  NoDup (Main.completed_steps (Main.mark_completed names s)) ∧
  Main.completed_steps s
    `prefix_of` Main.completed_steps (Main.mark_completed names s) ∧
  Main.artifacts (Main.mark_completed names s) = Main.artifacts s ∧
  (∀ x, x ∈ Main.completed_steps (Main.mark_completed names s)
        <-> x ∈ Main.completed_steps s ∨ x ∈ names).
Proof.
  revert s. induction names as [|name names IH]; intros s Hnd.
  - cbn. repeat split; try done; [by intros ?; left|].
    intros [?|Hin]; [done|]. by apply elem_of_nil in Hin.
  - cbn [Main.mark_completed]. case_bool_decide as Hin.
    + destruct (IH s Hnd) as (H1 & H2 & H3 & H4).
      split; [done|]. split; [done|]. split; [done|].
      intros x. rewrite H4, elem_of_cons. split; [tauto|].
      intros [?|[->|?]]; auto.
    + set (s1 := Main.print _ _).
      assert (Hnd1 : NoDup (Main.completed_steps s1)).
      { cbn. apply NoDup_app. split; [done|]. split; [|apply NoDup_singleton].
        intros x Hx Hx'. apply list_elem_of_singleton in Hx'. by subst. }
      destruct (IH s1 Hnd1) as (H1 & H2 & H3 & H4).
      split; [done|]. split.
      { etrans; [|exact H2]. by apply prefix_app_r. }
      split; [done|].
      intros x. rewrite H4. cbn [s1 Main.print Main.completed_steps].
      rewrite elem_of_app, list_elem_of_singleton, elem_of_cons. tauto.
Qed.

Lemma collect_artifacts_spec items s :
  NoDup (Main.artifacts s).*1 ->
  NoDup (Main.artifacts (Main.collect_artifacts items s)).*1 ∧
  Main.artifacts s `prefix_of` Main.artifacts (Main.collect_artifacts items s) ∧
  Main.completed_steps (Main.collect_artifacts items s)
  = Main.completed_steps s ∧
  (∀ x, x ∈ (Main.artifacts (Main.collect_artifacts items s)).*1
        <-> x ∈ (Main.artifacts s).*1 ∨ x ∈ items.*1).
Proof.
  revert s. induction items as [|[name art] items IH]; intros s Hnd.
  - cbn. repeat split; try done; [by intros ?; left|].
    intros [?|Hin]; [done|]. by apply elem_of_nil in Hin.
  - cbn [Main.collect_artifacts]. case_bool_decide as Hin.
    + destruct (IH s Hnd) as (H1 & H2 & H3 & H4).
      split; [done|]. split; [done|]. split; [done|].
      intros x. rewrite H4. cbn [fmap list_fmap fst]. rewrite elem_of_cons.
      split; [tauto|]. intros [?|[->|?]]; auto.
    + set (s1 := Main.print _ _).
      assert (Hnd1 : NoDup (Main.artifacts s1).*1).
      { cbn. rewrite fmap_app. apply NoDup_app. split; [done|].
        split; [|apply NoDup_singleton].
        intros x Hx Hx'. apply list_elem_of_singleton in Hx'. by subst. }
      destruct (IH s1 Hnd1) as (H1 & H2 & H3 & H4).
      split; [done|]. split.
      { etrans; [|exact H2]. by apply prefix_app_r. }
      split; [done|].
      intros x. rewrite H4. cbn [s1 Main.print Main.artifacts].
      rewrite fmap_app, elem_of_app. cbn [fmap list_fmap fst].
      rewrite list_elem_of_singleton, elem_of_cons. tauto.
Qed.

Lemma track_step_spec step s :
  NoDup (Main.completed_steps s) ->
  NoDup (Main.artifacts s).*1 ->
  (NoDup (Main.completed_steps (Main.track_step step s)) ∧
   NoDup (Main.artifacts (Main.track_step step s)).*1) ∧
  (Main.completed_steps s `prefix_of` Main.completed_steps (Main.track_step step s) ∧
   Main.artifacts s `prefix_of` Main.artifacts (Main.track_step step s)) ∧
  (∀ x, x ∈ Main.completed_steps (Main.track_step step s)
        <-> x ∈ Main.completed_steps s
            ∨ x ∈ default [] (st_completed_steps (state step))) ∧
  (∀ x, x ∈ (Main.artifacts (Main.track_step step s)).*1
        <-> x ∈ (Main.artifacts s).*1
            ∨ x ∈ (default [] (st_artifacts (state step))).*1).
Proof.
  intros Hc Ha. unfold Main.track_step.
  set (s1 := if negb _ then _ else s).
  assert (E1 : Main.completed_steps s1 = Main.completed_steps s
               ∧ Main.artifacts s1 = Main.artifacts s)
    by (subst s1; by destruct (negb _)).
  set (s2 := match last _ with Some _ => _ | None => s1 end).
  assert (E2 : Main.completed_steps s2 = Main.completed_steps s
               ∧ Main.artifacts s2 = Main.artifacts s)
    by (subst s2; by destruct (last _)).
  clearbody s2. clear s1 E1. destruct E2 as [Ec Ea].
  rewrite <- Ec in Hc. rewrite <- Ea in Ha. rewrite <- Ec, <- Ea.
  destruct (collect_artifacts_spec
              (default [] (st_artifacts (state step))) s2 Ha)
    as (A1 & A2 & A3 & A4).
  set (s3 := Main.collect_artifacts _ s2) in *.
  rewrite <- A3 in Hc.
  destruct (mark_completed_spec
              (default [] (st_completed_steps (state step))) s3 Hc)
    as (C1 & C2 & C3 & C4).
  rewrite C3.
  split; [by split|].
  split; [split; [by rewrite <- A3|done]|].
  split; [|done]. intros x. by rewrite C4, A3.
Qed.

End Tracker.

(** The loop of [main] counts every name once.  After any number of steps
    the list of completed steps holds no name twice and holds exactly the
    names it held before and those some step reported, in the order they
    were first seen; the same goes for the names of the artifacts kept, and
    an artifact or completed step once recorded keeps its place. *)
Theorem main_counts_each_name_once
    (steps : list Step) (s : Main.Tracker) :
  NoDup (Main.completed_steps s) ->
  NoDup (Main.artifacts s).*1 ->
  let s' := (Main.for_steps (Yield <$> steps) s).1 in
  (Main.for_steps (Yield <$> steps) s).2 = None ∧
  (NoDup (Main.completed_steps s') ∧ NoDup (Main.artifacts s').*1) ∧
  (Main.completed_steps s `prefix_of` Main.completed_steps s' ∧
   Main.artifacts s `prefix_of` Main.artifacts s') ∧
  (∀ x, x ∈ Main.completed_steps s'
        <-> x ∈ Main.completed_steps s
            ∨ ∃ step, step ∈ steps
                      ∧ x ∈ default [] (st_completed_steps (state step))) ∧
  (∀ x, x ∈ (Main.artifacts s').*1
        <-> x ∈ (Main.artifacts s).*1
            ∨ ∃ step, step ∈ steps
                      ∧ x ∈ (default [] (st_artifacts (state step))).*1).
Proof.
  revert s. induction steps as [|step steps IH]; intros s Hc Ha.
  - cbn. split; [done|]. split; [done|]. split; [done|].
    split; intros x; (split; [by left|]);
      (intros [?|(step & Hin & _)]; [done|by apply elem_of_nil in Hin]).
  - cbn [fmap list_fmap Main.for_steps].
    destruct (track_step_spec step s Hc Ha)
      as ([Hc1 Ha1] & [Pc1 Pa1] & Mc1 & Ma1).
    destruct (IH (Main.track_step step s) Hc1 Ha1)
      as (Hn & Hnd & [Pc Pa] & Mc & Ma).
    split; [done|]. split; [done|].
    split; [split; by etrans|].
    split; intros x.
    + rewrite Mc, Mc1. split.
      * intros [[?|?]|(st & Hin & Hx)]; [by left| |].
        -- right. exists step. split; [by left|done].
        -- right. exists st. split; [by right|done].
      * intros [?|(st & Hin & Hx)]; [by left; left|].
        apply elem_of_cons in Hin as [->|Hin]; [by left; right|].
        right. by exists st.
    + rewrite Ma, Ma1. split.
      * intros [[?|?]|(st & Hin & Hx)]; [by left| |].
        -- right. exists step. split; [by left|done].
        -- right. exists st. split; [by right|done].
      * intros [?|(st & Hin & Hx)]; [by left; left|].
        apply elem_of_cons in Hin as [->|Hin]; [by left; right|].
        right. by exists st.
Qed.

Lemma main_counts_each_name_once_witness :
  Main.completed_steps
    (Main.for_steps
       (Yield <$> [Sample.over_reporting; Sample.reporting 2])
       {| Main.artifacts := []; Main.completed_steps := [];
          Main.stdout := [] |}).1
  = workflow_steps.
Proof.
  pose proof (main_counts_each_name_once
                [Sample.over_reporting; Sample.reporting 2]
                {| Main.artifacts := []; Main.completed_steps := [];
                   Main.stdout := [] |}) as H.
  destruct H as (_ & [Hnd _] & _).
  - constructor.
  - constructor.
  - reflexivity.
Defined.

(** The final report [main] writes is the content of the artifact named
    ["project_report"]; when no artifact has that name, or the one that has
    it carries no content, it is the fixed sentence "Project completed with
    no final report.". *)
Theorem final_report_is_the_project_report
    (pre post : list (string * StepArtifact)) (art : StepArtifact) :
  "project_report" ∉ pre.*1 ->
  Main.final_report (pre ++ ("project_report", art) :: post)
  = default "Project completed with no final report." (sa_content art) ∧
  Main.final_report pre = "Project completed with no final report.".
Proof.
  intros Hnot.
  assert (Hpre : ∀ item : string * StepArtifact,
            item ∈ pre -> item.1 ≠ "project_report").
  { intros item Hin Heq. apply Hnot. rewrite <- Heq.
    by apply list_elem_of_fmap_2. }
  unfold Main.final_report. split.
  - assert (list_find (λ item : string * StepArtifact,
                         item.1 = "project_report")
              (pre ++ ("project_report", art) :: post)
            = Some (length pre, ("project_report", art))) as ->; [|done].
    apply list_find_Some. split; [by apply list_lookup_middle|].
    split; [done|]. intros k y Hk Hlt.
    rewrite lookup_app_l in Hk by done.
    apply Hpre. by eapply list_elem_of_lookup_2.
  - assert (list_find (λ item : string * StepArtifact,
                         item.1 = "project_report") pre = None) as ->; [|done].
    apply list_find_None, Forall_forall. exact Hpre.
Qed.

Lemma final_report_is_the_project_report_witness :
  Main.final_report
    ([("brd", Sample.text_artifact "requirements")] ++
     ("project_report", Sample.text_artifact "All done.") :: [])
  = "All done.".
Proof.
  refine (proj1 (final_report_is_the_project_report
                   [("brd", Sample.text_artifact "requirements")] []
                   (Sample.text_artifact "All done.") _)).
  cbn. rewrite list_elem_of_singleton. discriminate.
Defined.

Section Printed.

Variable print : string -> option Exn.

Lemma printed_succeeds (todo : list string) :
  Forall (λ step, print ("Executing phase: " +:+ step) = None) todo ->
  Graph.printed print todo = (λ step, "Executing phase: " +:+ step) <$> todo.
Proof.
  induction 1 as [|step todo Hstep _ IH]; [done|].
  cbn [Graph.printed fmap list_fmap]. by rewrite Hstep, IH.
Qed.

Lemma printed_fails_at (pre post : list string) (step : string) (e : Exn) :
  Forall (λ s, print ("Executing phase: " +:+ s) = None) pre ->
  print ("Executing phase: " +:+ step) = Some e ->
  Graph.printed print (pre ++ step :: post)
  = (λ s, "Executing phase: " +:+ s) <$> pre.
Proof.
  intros Hpre Hfail. induction Hpre as [|s pre Hs _ IH].
  - cbn [app Graph.printed]. by rewrite Hfail.
  - cbn [app Graph.printed fmap list_fmap]. by rewrite Hs, IH.
Qed.

End Printed.

(** As shipped, the command-line program cannot get past its loop.  Once
    the requirements are read, [main] prints its eight header lines, the last
    of them "Initializing workflow..."; [run_workflow] of
    [workflow/graph.py] prints one "Executing phase: ..." line per phase, up
    to the first [print] that fails, and hands [main] a [WorkflowState]; the
    [for] statement raises [TypeError], which [main] does not catch, and the
    program ends there without writing any file.  When no [print] fails,
    fifteen lines follow what [read_requirements] printed, and the last one
    is "Executing phase: project_completion". *)
Theorem main_stops_at_the_loop_with_graph_workflow
    (print : string -> option Exn) (uuid4 : string) (args : Main.Args)
    (project_id : string) (files : gmap string string)
    (stdin rest printed : list string) (requirements : string) :
  Main.read_requirements (Main.args_requirements args) files stdin
  = (Main.Done requirements, rest, printed) ->
  ∃ run,
    Main.main (Main.graph_run_workflow print uuid4) args project_id files stdin
    = (run, Some (not_iterable "WorkflowState")) ∧
    Main.run_written run = [] ∧
    Main.run_stdout run
    = printed ++ Main.header project_id requirements
        ++ Graph.printed print Graph.steps ∧
    last (Main.header project_id requirements)
    = Some "Initializing workflow..." ∧
    (Forall (λ step, print ("Executing phase: " +:+ step) = None) Graph.steps ->
     Graph.printed print Graph.steps
     = (λ step, "Executing phase: " +:+ step) <$> Graph.steps ∧
     length (Main.run_stdout run) = length printed + 15 ∧
     last (Main.run_stdout run) = Some "Executing phase: project_completion") ∧
    (∀ pre step post e,
       Graph.steps = pre ++ step :: post ->
       Forall (λ s, print ("Executing phase: " +:+ s) = None) pre ->
       print ("Executing phase: " +:+ step) = Some e ->
       Graph.printed print Graph.steps
       = (λ s, "Executing phase: " +:+ s) <$> pre).
Proof.
  intros Hread. unfold Main.main. rewrite Hread.
  eexists. split; [reflexivity|]. split; [done|].
  cbn [Main.main_body Main.graph_run_workflow graph_run_workflow fst
       Main.run_stdout Main.stdout].
  split; [done|]. split; [done|]. split.
  - intros Hok. rewrite (printed_succeeds print Graph.steps Hok).
    split; [done|]. split.
    + rewrite !length_app. cbn. lia.
    + by rewrite !last_app.
  - intros pre step post e Hsteps Hpre Hfail. rewrite Hsteps.
    by apply (printed_fails_at print pre post step e).
Qed.

Lemma main_stops_at_the_loop_with_graph_workflow_witness :
  ∃ run,
    Main.main (Main.graph_run_workflow Sample.print_ok "g1")
      {| Main.args_requirements := Some "requirements.txt";
         Main.args_output := Some "out";
         Main.args_save_artifacts := true |}
      "project_20240101120000"
      {[ "requirements.txt" := "Build a task tracker" ]} []
    = (run, Some (not_iterable "WorkflowState")) ∧
    Main.run_written run = [] ∧
    length (Main.run_stdout run) = 15 ∧
    last (Main.run_stdout run) = Some "Executing phase: project_completion".
Proof.
  destruct (main_stops_at_the_loop_with_graph_workflow Sample.print_ok "g1"
              {| Main.args_requirements := Some "requirements.txt";
                 Main.args_output := Some "out";
                 Main.args_save_artifacts := true |}
              "project_20240101120000"
              {[ "requirements.txt" := "Build a task tracker" ]} [] [] []
              "Build a task tracker")
    as (run & Hmain & Hwritten & _ & _ & Hok & _).
  - reflexivity.
  - destruct Hok as (_ & Hlen & Hlast); [by repeat constructor|].
    exists run. by repeat split.
Defined.

(** ** Exceptions and progress when the workflow is a generator *)

(** Handed a generator, the engine handles the failure of a stage as its
    [except] clause says.  When the stages before it have yielded the steps
    [pre] and the next stage raises an [Exception] [e], the call returns;
    the project is as the steps [pre] left it, with one more message, from
    ["System"], of content ["Error: "] followed by [str(e)], and with the
    status ["error"]; no later stage is asked for.  When the stage raises
    an exception that is not an [Exception], nothing is appended, the status
    stays as the last step left it, and the exception leaves the task. *)
Theorem stage_exception_is_caught_unless_exiting
    (rw : string -> string -> Returned) (w : World) (pid : string)
    (project : ProjectState) (pre : list Step) (post : list StageOutcome)
    (e : Exn) :
  active_projects w !! pid = Some project ->
  let r :=
    (for_steps (Yield <$> pre) (set_status "running" project) (clock w)).1 in
  let failed :=
    set_status "error"
      (set_messages
         (messages r.1 ++
            [{| sender := Some "System";
                content := "Error: " +:+ exn_str e;
                timestamp := r.2 |}])
         r.1) in
  (rw pid (requirements project)
   = Generator ((Yield <$> pre) ++ Raise e :: post) ->
   run_project_workflow rw pid w = Returns (commit pid failed (S r.2) w) ∧
   (status ∘ fst) <$> engine_states rw pid project (clock w)
   = "running"
     :: ((status ∘ fst)
           <$> loop_states (Yield <$> pre) (set_status "running" project)
                 (clock w))
     ++ ["error"]) ∧
  (rw pid (requirements project)
   = Generator ((Yield <$> pre) ++ Exit e :: post) ->
   run_project_workflow rw pid w = Escapes e (commit pid r.1 r.2 w) ∧
   terminal (status r.1) = false).
Proof.
  intros Hin r failed.
  split.
  - intros Hrw. split.
    + unfold run_project_workflow, try_suite. rewrite Hin.
      cbn [update_status String.eqb Ascii.eqb Bool.eqb set_status requirements].
      rewrite Hrw, for_steps_app_raise. subst failed r.
      destruct (for_steps (Yield <$> pre) _ _) as [[p t] o]. done.
    + unfold engine_states.
      cbn [update_status String.eqb Ascii.eqb Bool.eqb set_status requirements
           fst snd].
      rewrite Hrw, for_steps_app_raise, loop_states_yield_app.
      destruct (for_steps (Yield <$> pre) _ _) as [[p t] o].
      cbn [fst snd loop_states]. rewrite app_nil_r.
      cbn [fmap list_fmap]. f_equal. by rewrite fmap_app.
  - intros Hrw. split.
    + unfold run_project_workflow, try_suite. rewrite Hin.
      cbn [update_status String.eqb Ascii.eqb Bool.eqb set_status requirements].
      rewrite Hrw, for_steps_app_exit. subst r.
      destruct (for_steps (Yield <$> pre) _ _) as [[p t] o]. done.
    + subst r. rewrite for_steps_last_state.
      pose proof (loop_states_not_terminal (Yield <$> pre)
                    (set_status "running" project) (clock w) eq_refl) as Hnt.
      destruct (last _) as [x|] eqn:Hlast; [|done].
      apply last_Some_elem_of in Hlast. rewrite Forall_forall in Hnt.
      by apply Hnt.
Qed.

Lemma stage_exception_is_caught_unless_exiting_witness :
  (∃ final,
     run_project_workflow Sample.failing_late "p1" Sample.started
     = Returns (commit "p1" final 3 Sample.started) ∧
     status final = "error" ∧
     content <$> messages final
     = [initial_message; "Error: connection timeout"]) ∧
  (∃ left,
     run_project_workflow Sample.exiting "p1" Sample.started
     = Escapes Sample.system_exit (commit "p1" left 2 Sample.started) ∧
     status left = "In progress - 14% complete" ∧
     length (messages left) = 1).
Proof.
  split.
  - destruct (stage_exception_is_caught_unless_exiting Sample.failing_late
                Sample.started "p1" Sample.fresh_project [Sample.reporting 7] []
                Sample.timeout) as [Hraise _]; [reflexivity|].
    destruct Hraise as [Hrun _]; [reflexivity|].
    eexists. split; [exact Hrun|]. by split.
  - destruct (stage_exception_is_caught_unless_exiting Sample.exiting
                Sample.started "p1" Sample.fresh_project [Sample.reporting 1] []
                Sample.system_exit) as [_ Hexit]; [reflexivity|].
    destruct Hexit as [Hrun _]; [reflexivity|].
    eexists. split; [exact Hrun|]. by split.
Defined.

Lemma loop_states_published (steps : list Step) (p : ProjectState) (t : Time) :
  Forall (λ s, (1 ≤ completed_count s ≤ 1000)%nat) steps ->
  (status ∘ fst) <$> loop_states (Yield <$> steps) p t
  = (λ s, "In progress - "
            +:+ str_int (100 * Z.of_nat (completed_count s) / 7)
            +:+ "% complete") <$> steps.
Proof.
  intros Hsteps. revert p t.
  induction Hsteps as [|s steps [Hpos Hle] _ IH]; intros p t; [done|].
  cbn [fmap list_fmap loop_states]. f_equal; [|apply IH].
  cbn [compose fst]. rewrite process_step_published, published_floor by done.
  by rewrite decide_False by lia.
Qed.

(** Handed a generator whose stages all yield, the engine publishes after
    each step the progress ["In progress - N% complete"] with
    [N = floor(100·k/7)] for the number [k] of completed steps that step
    reports ([1 ≤ k ≤ 1000], the range checked by evaluation), between the
    statuses ["running"] and ["completed"]. *)
Theorem generator_run_publishes_floor_progress
    (rw : string -> string -> Returned) (pid : string)
    (project : ProjectState) (now : Time) (steps : list Step) :
  rw pid (requirements project) = Generator (Yield <$> steps) ->
  Forall (λ s, (1 ≤ completed_count s ≤ 1000)%nat) steps ->
  (status ∘ fst) <$> engine_states rw pid project now
  = "running"
    :: ((λ s, "In progress - "
                +:+ str_int (100 * Z.of_nat (completed_count s) / 7)
                +:+ "% complete") <$> steps)
    ++ ["completed"].
Proof.
  intros Hrw Hsteps. unfold engine_states.
  cbn [update_status String.eqb Ascii.eqb Bool.eqb set_status requirements
       fst snd].
  rewrite Hrw.
  pose proof (for_steps_yield steps (set_status "running" project) now) as Hn.
  destruct (for_steps _ _ _) as [[p t] o]. cbn [snd] in Hn. subst o.
  cbn [fmap list_fmap]. f_equal.
  rewrite fmap_app, loop_states_published by done. done.
Qed.

Lemma generator_run_publishes_floor_progress_witness :
  (status ∘ fst)
    <$> engine_states Sample.seven_steps "p1" Sample.fresh_project 2
  = [ "running"; "In progress - 14% complete"; "In progress - 28% complete";
      "In progress - 42% complete"; "In progress - 57% complete";
      "In progress - 71% complete"; "In progress - 85% complete";
      "In progress - 100% complete"; "completed" ].
Proof.
  rewrite (generator_run_publishes_floor_progress Sample.seven_steps "p1"
             Sample.fresh_project 2 (Sample.reporting <$> seq 1 7)).
  - reflexivity.
  - reflexivity.
  - cbn. repeat constructor; lia.
Defined.

(** ** Further edge cases *)

Lemma imap_content (agent : option string) (now : Time) (l : list StepMessage) :
  content <$>
    imap (λ i m,
            {| sender := if String.eqb (msg_type m) "human" then Some "User"
                         else agent;
               content := msg_content m;
               timestamp := now + i |}) l
  = msg_content <$> l.
Proof.
  revert now. induction l as [|m l IH]; intros now; [done|].
  rewrite imap_cons. cbn [fmap list_fmap]. f_equal.
  rewrite <- (IH (S now)). f_equal. apply imap_ext. intros i x _. cbn.
  f_equal. lia.
Qed.

(** A message posted while the task runs costs the log one message of the
    workflow.  The loop skips as many of the step's messages as the log is
    long, so after a post the step's message at the old end of the log is
    never appended: the log continues with the posted text and then with the
    step's messages from the next position on. *)
Theorem posted_message_displaces_a_step_message
    (step : Step) (project : ProjectState) (text : string) (now : Time) :
  let msgs := default [] (st_messages (state step)) in
  let posted := (add_message project (Some "User") text None now).1 in
  content <$> messages (process_step step project now).1
  = (content <$> messages project)
    ++ (msg_content <$> drop (length (messages project)) msgs) ∧
  content <$> messages (process_step step posted (S now)).1
  = (content <$> messages project) ++ [text]
    ++ (msg_content <$> drop (S (length (messages project))) msgs).
Proof.
  intros msgs posted. split.
  - destruct (process_step_log step project now) as [-> _].
    by rewrite fmap_app, imap_content.
  - destruct (process_step_log step posted (S now)) as [-> _].
    rewrite fmap_app, imap_content. subst posted.
    cbn [add_message fst messages set_messages].
    rewrite fmap_app, length_app, <- app_assoc. cbn [length fmap list_fmap].
    by rewrite Nat.add_1_r.
Qed.

(** A negative [last_id] is taken from the end of the log, as Python slices
    do: for [c < 0] the answer holds the last [-c] messages, or all of them
    when the log is shorter, and the new cursor [c] plus their number is 0
    in the first case and stays negative in the second; it is never the
    length of the log unless the log is empty. *)
Theorem negative_last_id_reads_the_tail
    (w : World) (pid : string) (project : ProjectState) (c : Z) :
  active_projects w !! pid = Some project ->
  (c < 0)%Z ->
  ∃ body,
    project_messages pid (Some c) w = Ok body ∧
    new_messages body
    = drop (length (messages project) - Z.to_nat (- c)) (messages project) ∧
    length (new_messages body)
    = min (Z.to_nat (- c)) (length (messages project)) ∧
    last_id body = (c + Z.of_nat (length (new_messages body)))%Z ∧
    ((- Z.of_nat (length (messages project)) ≤ c)%Z -> last_id body = 0%Z) ∧
    ((c ≤ - Z.of_nat (length (messages project)))%Z ->
       new_messages body = messages project) ∧
    (last_id body ≤ 0)%Z.
Proof.
  intros Hin Hc. unfold project_messages. rewrite Hin.
  change (default 0%Z (Some c)) with c.
  eexists. split; [reflexivity|]. cbn [new_messages last_id].
  unfold slice_from. destruct (Z.ltb_spec c 0); [|lia].
  replace (Z.to_nat (Z.max 0 (Z.of_nat (length (messages project)) + c)))
    with (length (messages project) - Z.to_nat (- c)) by lia.
  split; [done|]. rewrite length_drop.
  split; [lia|]. split; [done|]. split; [lia|]. split; [|lia].
  intros Hall.
  replace (length (messages project) - Z.to_nat (- c)) with 0 by lia. done.
Qed.

Lemma negative_last_id_reads_the_tail_witness :
  ∃ body,
    project_messages "p1" (Some (-1)%Z) Sample.ended = Ok body ∧
    content <$> new_messages body
    = ["Error: 'WorkflowState' object is not iterable"] ∧
    last_id body = 0%Z.
Proof.
  destruct (negative_last_id_reads_the_tail Sample.ended "p1"
              (set_status "error"
                 (set_messages
                    (messages Sample.fresh_project ++
                       [{| sender := Some "System";
                           content :=
                             "Error: 'WorkflowState' object is not iterable";
                           timestamp := 2 |}])
                    Sample.fresh_project))
              (-1)%Z) as (body & Hbody & Hnew & _ & _ & Hzero & _).
  - reflexivity.
  - lia.
  - exists body. rewrite Hnew. split; [exact Hbody|]. split; [reflexivity|].
    apply Hzero. cbn. lia.
Defined.

(** An artifact whose name begins with a slash is written outside the
    output directory: [os.path.join] drops the directory before an absolute
    second component, so the file is created at the path that the name and
    its extension spell. *)
Theorem absolute_artifact_name_leaves_the_directory
    (dir name : string) (art : StepArtifact)
    (rest : list (string * StepArtifact)) (init : option string) :
  String.prefix "/" name = true ->
  (Main.save_artifacts_loop dir ((name, art) :: rest) init).1 !! 0
  = Some (name +:+ Main.file_extension_for name art,
          Main.Text (default "" (sa_content art))).
Proof.
  intros Habs. cbn [Main.save_artifacts_loop fst]. cbn [lookup list_lookup].
  unfold Main.path_join.
  assert (String.prefix "/" (name +:+ Main.file_extension_for name art) = true)
    as ->; [|done].
  assert (Hempty : ∀ s, String.prefix "" s = true) by (by intros []).
  destruct name as [|a name']; [done|].
  change (String.prefix "/"
            (String a (name' +:+ Main.file_extension_for (String a name') art))
          = true).
  cbn [String.prefix] in Habs |- *.
  destruct (Ascii.ascii_dec _ a); [apply Hempty|done].
Qed.

Lemma absolute_artifact_name_leaves_the_directory_witness :
  (Main.save_artifacts_loop "out/artifacts"
     [("/tmp/notes", Sample.text_artifact "text")] None).1 !! 0
  = Some ("/tmp/notes.md", Main.Text "text").
Proof.
  apply (absolute_artifact_name_leaves_the_directory "out/artifacts"
           "/tmp/notes" (Sample.text_artifact "text") [] None).
  reflexivity.
Defined.

Lemma run_project_workflow_completes_on_generator_witness :
  ∃ final t,
    run_project_workflow Sample.two_steps "p1" Sample.started
    = Returns (commit "p1" final (S t) Sample.started) ∧
    status final = "completed" ∧ completed_at final = Some t.
Proof.
  destruct (run_project_workflow_completes_on_generator Sample.two_steps
              Sample.started "p1" Sample.fresh_project
              [ Sample.step_with "business_analyst" []
                  [("brd", Sample.text_artifact "first")] ["business_analysis"];
                Sample.step_with "database_designer" []
                  [("brd", Sample.text_artifact "second")]
                  ["business_analysis"; "database_design"] ])
    as (final & t & Hrun & Hst & Hat & _).
  - reflexivity.
  - reflexivity.
  - by exists final, t.
Defined.
